(** * Pine Script syntax checker: a shallow embedding of
      [tools/pine-syntax-checker.py] and the properties of its checks.

    The checker reads a script as text, splits it into lines and runs a
    fixed series of checks, each of which appends messages to one of two
    lists kept in the checker object ([errors] and [warnings]).

    Modelling choices.
    - A Python [str] is a list of characters.  Characters are the 8-bit
      [ascii] of the standard library, read as the code points 0..255; the
      classification tables ([isspace], [\w], [\d]) are Python's tables on
      that range, so the model agrees with the program on every ASCII and
      Latin-1 document.
    - Python's [int] is unbounded: line numbers are [nat], the parsed version
      number is [N], the signed parenthesis counter is [Z].
    - A compiled pattern of the [re] module is a value of type [re]; the
      matcher is a backtracking matcher with the priorities of Python's
      (leftmost start, first alternative, greedy repetition).  Every
      repetition in the program's patterns is over a single character class,
      which is what [Star] and [Plus] take.
    - [self.errors] and [self.warnings] live in a record threaded through a
      state monad; [self.errors.append(x)] is [err x]. *)

From Stdlib Require Import Ascii String List ZArith NArith Lia Bool.
From Stdlib Require Import Decimal DecimalString DecimalNat DecimalN Sorted.
From stdpp Require Import gmap strings list.
Import ListNotations.

Set Implicit Arguments.
Local Open Scope nat_scope.
Local Open Scope list_scope.

(** ** Python strings *)

Definition str := list ascii.

Definition txt (s : string) : str := list_ascii_of_string s.
Arguments txt s%_string.

Definition nl : ascii := ascii_of_nat 10.

Definition code (c : ascii) : nat := nat_of_ascii c.

Definition between (lo hi n : nat) : bool := (lo <=? n) && (n <=? hi).

(** [str.isspace] on one character, which is also the class [\s]. *)
Definition isspace (c : ascii) : bool :=
  let n := code c in
  between 9 13 n || between 28 32 n || (n =? 133) || (n =? 160).

(** The class [\d]. *)
Definition isdigit (c : ascii) : bool := between 48 57 (code c).

(** The class [\w]: alphanumeric characters and the underscore. *)
Definition isword (c : ascii) : bool :=
  let n := code c in
  between 48 57 n || between 65 90 n || between 97 122 n || (n =? 95)
  || (n =? 170) || (n =? 178) || (n =? 179) || (n =? 181) || (n =? 185)
  || (n =? 186) || between 188 190 n || between 192 214 n
  || between 216 246 n || between 248 255 n.

Definition chr_is (a c : ascii) : bool := Ascii.eqb a c.

Fixpoint drop_while (p : ascii -> bool) (s : str) : str :=
  match s with
  | [] => []
  | c :: t => if p c then drop_while p t else s
  end.

Definition lstrip (s : str) : str := drop_while isspace s.
Definition rstrip (s : str) : str := rev (drop_while isspace (rev s)).
Definition strip (s : str) : str := rstrip (lstrip s).

Fixpoint startswith (p s : str) : bool :=
  match p, s with
  | [], _ => true
  | a :: p', b :: s' => chr_is a b && startswith p' s'
  | _ :: _, [] => false
  end.

Definition endswith (p s : str) : bool := startswith (rev p) (rev s).

(** [sub in s] *)
Fixpoint contains (sub s : str) : bool :=
  startswith sub s ||
  match s with
  | [] => false
  | _ :: t => contains sub t
  end.

(** [s.count(sub)]: occurrences that do not overlap, from the left. *)
Fixpoint count_from (sub : str) (skip : nat) (s : str) : nat :=
  match s with
  | [] => 0
  | _ :: t =>
      match skip with
      | S k => count_from sub k t
      | O => if startswith sub s
             then S (count_from sub (length sub - 1) t)
             else count_from sub 0 t
      end
  end.

Definition count (sub s : str) : nat :=
  match sub with
  | [] => S (length s)
  | _ => count_from sub 0 s
  end.

(** [s.split('\n')] *)
Fixpoint split_lines (s : str) : list str :=
  match s with
  | [] => [[]]
  | c :: t =>
      if chr_is c nl then [] :: split_lines t
      else match split_lines t with
           | h :: r => (c :: h) :: r
           | [] => [[c]]
           end
  end.

(** [str(n)] *)
Definition str_of_nat (n : nat) : str :=
  list_ascii_of_string (NilEmpty.string_of_uint (Nat.to_uint n)).

Definition str_of_N (n : N) : str :=
  list_ascii_of_string (NilEmpty.string_of_uint (N.to_uint n)).

(** [int(s)] on a string of decimal digits, which is what the pattern of the
    version directive hands over; leading zeros are allowed. *)
Definition int_of_digits (s : str) : N :=
  match NilEmpty.uint_of_string (string_of_list_ascii s) with
  | Some d => N.of_uint d
  | None => 0%N
  end.

(** [enumerate(l, 1)] *)
Fixpoint enumerate_from {A} (i : nat) (l : list A) : list (nat * A) :=
  match l with
  | [] => []
  | x :: t => (i, x) :: enumerate_from (S i) t
  end.

Definition enumerate1 {A} (l : list A) : list (nat * A) := enumerate_from 1 l.

(** ** Patterns of the [re] module *)

Inductive re : Type :=
| Eps
| Cls (p : ascii -> bool)
| Lit (s : str)
| Seq (r1 r2 : re)
| Alt (r1 r2 : re)
| Star (p : ascii -> bool)
| Plus (p : ascii -> bool)
| Bol
| Eol
| WordB
| Grp (r : re).

(** A position in the subject: the text before it (nearest character
    first), the text after it, and what group 1 holds so far. *)
Record cursor : Type := Cursor {
  before : str;
  after : str;
  group1 : option str
}.

Definition at_word_boundary (c : cursor) : bool :=
  let l := match before c with [] => false | a :: _ => isword a end in
  let r := match after c with [] => false | a :: _ => isword a end in
  xorb l r.

(** [$] without [re.MULTILINE]: the end, or just before a final newline. *)
Definition at_end (c : cursor) : bool :=
  match after c with
  | [] => true
  | [a] => chr_is a nl
  | _ => false
  end.

Definition or_else {A} (x y : option A) : option A :=
  match x with
  | Some _ => x
  | None => y
  end.

Section Matcher.
Variable A : Type.

Fixpoint lit_from (l bef aft : str) : option (str * str) :=
  match l with
  | [] => Some (bef, aft)
  | a :: l' =>
      match aft with
      | b :: aft' => if chr_is a b then lit_from l' (b :: bef) aft' else None
      | [] => None
      end
  end.

(** Greedy repetition of a class: take as many as possible, give back one
    at a time while the rest of the pattern fails. *)
Fixpoint star_from (p : ascii -> bool) (k : cursor -> option A)
    (g : option str) (bef aft : str) : option A :=
  match aft with
  | c :: aft' =>
      if p c
      then or_else (star_from p k g (c :: bef) aft') (k (Cursor bef aft g))
      else k (Cursor bef aft g)
  | [] => k (Cursor bef aft g)
  end.

Fixpoint rmatch (r : re) (k : cursor -> option A) (c : cursor) : option A :=
  match r with
  | Eps => k c
  | Cls p =>
      match after c with
      | a :: aft' => if p a then k (Cursor (a :: before c) aft' (group1 c)) else None
      | [] => None
      end
  | Lit l =>
      match lit_from l (before c) (after c) with
      | Some (bef, aft) => k (Cursor bef aft (group1 c))
      | None => None
      end
  | Seq r1 r2 => rmatch r1 (rmatch r2 k) c
  | Alt r1 r2 => or_else (rmatch r1 k c) (rmatch r2 k c)
  | Star p => star_from p k (group1 c) (before c) (after c)
  | Plus p =>
      match after c with
      | a :: aft' =>
          if p a then star_from p k (group1 c) (a :: before c) aft' else None
      | [] => None
      end
  | Bol => match before c with [] => k c | _ :: _ => None end
  | Eol => if at_end c then k c else None
  | WordB => if at_word_boundary c then k c else None
  | Grp r' =>
      rmatch r'
        (fun c' =>
           k (Cursor (before c') (after c')
                (Some (firstn (length (after c) - length (after c')) (after c)))))
        c
  end.
End Matcher.

(** A match object: where it starts, where it ends, and group 1. *)
Record rmatched : Type := Matched {
  m_start : cursor;
  m_end : cursor
}.

Definition m_offset (m : rmatched) : nat := length (before (m_start m)).
Definition m_text (m : rmatched) : str :=
  firstn (length (after (m_start m)) - length (after (m_end m))) (after (m_start m)).
Definition m_group1 (m : rmatched) : str :=
  match group1 (m_end m) with Some g => g | None => [] end.

Definition match_here (r : re) (c : cursor) : option rmatched :=
  rmatch r (fun c' => Some (Matched c c')) c.

(** Try every start position from the cursor on, the end included. *)
Fixpoint search_from (r : re) (bef aft : str) : option rmatched :=
  match match_here r (Cursor bef aft None) with
  | Some m => Some m
  | None =>
      match aft with
      | [] => None
      | a :: aft' => search_from r (a :: bef) aft'
      end
  end.

(** [re.search(r, s)] and [re.match(r, s)] *)
Definition re_search (r : re) (s : str) : option rmatched := search_from r [] s.
Definition re_match (r : re) (s : str) : option rmatched :=
  match_here r (Cursor [] s None).

Definition found {A} (o : option A) : bool :=
  match o with Some _ => true | None => false end.

(** [re.finditer(r, s)]: the successive matches that do not overlap.  After
    an empty match the scan moves on by one character.  [fuel] bounds the
    number of matches, which is at most one per position. *)
Fixpoint finditer_from (fuel : nat) (r : re) (bef aft : str) : list rmatched :=
  match fuel with
  | O => []
  | S fuel' =>
      match search_from r bef aft with
      | None => []
      | Some m =>
          let e := m_end m in
          if length (after e) <? length (after (m_start m))
          then m :: finditer_from fuel' r (before e) (after e)
          else match after e with
               | [] => [m]
               | a :: aft' => m :: finditer_from fuel' r (a :: before e) aft'
               end
      end
  end.

Definition re_finditer (r : re) (s : str) : list rmatched :=
  finditer_from (S (length s)) r [] s.

(** [re.findall(r, s)] for a pattern without groups *)
Definition re_findall (r : re) (s : str) : list str := map m_text (re_finditer r s).

(** Pattern building blocks. *)
Definition ch (a : ascii) : re := Cls (chr_is a).
Definition not_ch (a : ascii) (c : ascii) : bool := negb (chr_is a c).
Definition not_ch2 (a b : ascii) (c : ascii) : bool := negb (chr_is a c) && negb (chr_is b c).
Definition either_ch (a b : ascii) (c : ascii) : bool := chr_is a c || chr_is b c.
(** [.] matches anything but a newline. *)
Definition dot (c : ascii) : bool := negb (chr_is nl c).

Fixpoint seqs (l : list re) : re :=
  match l with
  | [] => Eps
  | [r] => r
  | r :: t => Seq r (seqs t)
  end.

Fixpoint alts (l : list re) : re :=
  match l with
  | [] => Cls (fun _ => false)
  | [r] => r
  | r :: t => Alt r (alts t)
  end.

(** ** The checker object and its monad *)

(** [self.errors] and [self.warnings] of [PineSyntaxChecker]. *)
Record checker : Type := Checker {
  errors : list str;
  warnings : list str
}.

(** [__init__] *)
Definition init : checker := Checker [] [].

Definition M (A : Type) : Type := checker -> A * checker.

Definition ret {A} (x : A) : M A := fun st => (x, st).
Definition bind {A B} (m : M A) (f : A -> M B) : M B :=
  fun st => let (x, st') := m st in f x st'.

Notation "x <- m ;; k" := (bind m (fun x => k))
  (at level 100, m at next level, right associativity).
Notation "m ;; k" := (bind m (fun _ => k))
  (at level 100, right associativity).

(** [self.errors.append(x)] and [self.warnings.append(x)] *)
Definition err (x : str) : M unit :=
  fun st => (tt, Checker (errors st ++ [x]) (warnings st)).
Definition warn (x : str) : M unit :=
  fun st => (tt, Checker (errors st) (warnings st ++ [x])).

Definition skip : M unit := ret tt.
Definition when (b : bool) (m : M unit) : M unit := if b then m else skip.

(** [for x in l: body] *)
Fixpoint for_each {A} (l : list A) (body : A -> M unit) : M unit :=
  match l with
  | [] => skip
  | x :: t => body x ;; for_each t body
  end.

(** A loop that also updates local variables, collected in [s]. *)
Fixpoint for_fold {A S} (l : list A) (body : S -> A -> M S) (s : S) : M S :=
  match l with
  | [] => ret s
  | x :: t => s' <- body s x ;; for_fold t body s'
  end.

Definition exec {A} (m : M A) (st : checker) : checker := snd (m st).
Definition eval {A} (m : M A) (st : checker) : A := fst (m st).

(** Whether a line is a comment: [line.strip().startswith('//')]. *)
Definition is_comment (stripped : str) : bool := startswith (txt "//") stripped.

Definition is_empty {A} (s : list A) : bool := match s with [] => true | _ => false end.

(** ** [check_basic_syntax] *)

(** *** Matching brackets *)

(** The dictionary [brackets]. *)
Definition brackets (c : ascii) : option ascii :=
  if chr_is "(" c then Some ")"%char
  else if chr_is "[" c then Some "]"%char
  else if chr_is "{" c then Some "}"%char
  else None.

(** [char in brackets.values()] *)
Definition is_closing (c : ascii) : bool :=
  chr_is ")" c || chr_is "]" c || chr_is "}" c.

Definition msg_unexpected (i : nat) (char : ascii) : str :=
  txt "Line " ++ str_of_nat i ++ txt ": Unexpected closing bracket '" ++ [char] ++ txt "'".

Definition msg_mismatched (i : nat) (opening : ascii) (open_line : nat) (char : ascii) : str :=
  txt "Line " ++ str_of_nat i ++ txt ": Mismatched brackets. Opened '" ++ [opening]
  ++ txt "' on line " ++ str_of_nat open_line ++ txt ", closed '" ++ [char]
  ++ txt "' on line " ++ str_of_nat i.

Definition msg_unclosed (line : nat) (char : ascii) : str :=
  txt "Line " ++ str_of_nat line ++ txt ": Unclosed bracket '" ++ [char] ++ txt "'".

(** The stack is a list whose head is the top: [stack.append] is a cons,
    [stack.pop()] takes the head and [stack[-1]] reads it. *)
Definition bracket_stack : Type := list (ascii * nat).

(** The body of the inner loop, on one character of line [i].  The stack
    holds opening characters only, so [brackets[opening]] is always there. *)
Definition bracket_char (i : nat) (stack : bracket_stack) (char : ascii) : M bracket_stack :=
  match brackets char with
  | Some _ => ret ((char, i) :: stack)
  | None =>
      if is_closing char then
        match stack with
        | [] => err (msg_unexpected i char) ;; ret stack
        | (opening, open_line) :: stack' =>
            when (match brackets opening with
                  | Some closing => negb (chr_is closing char)
                  | None => false
                  end)
              (err (msg_mismatched i opening open_line char)) ;;
            ret stack'
        end
      else ret stack
  end.

Definition bracket_line (stack : bracket_stack) (il : nat * str) : M bracket_stack :=
  for_fold (snd il) (bracket_char (fst il)) stack.

Definition bracket_scan (lines : list str) : M bracket_stack :=
  for_fold (enumerate1 lines) bracket_line [].

Definition check_brackets (lines : list str) : M unit :=
  stack <- bracket_scan lines ;;
  match stack with
  | (char, line) :: _ => err (msg_unclosed line char)
  | [] => skip
  end.

(** *** Version directive *)

Definition msg_should_start : str := txt "File should start with //@version directive".
Definition msg_no_version : str := txt "Could not determine Pine Script version".
Definition msg_outdated (version : N) : str :=
  txt "Pine Script version " ++ str_of_N version ++ txt " is outdated. Consider upgrading to v6".
Definition msg_newer (version : N) : str :=
  txt "Pine Script version " ++ str_of_N version ++ txt " is newer than expected. Ensure compatibility".

(** [//@version=(\d+)] *)
Definition re_version : re := Seq (Lit (txt "//@version=")) (Grp (Plus isdigit)).

(** [int(version_match.group(1))] when the pattern is found. *)
Definition find_version (content : str) : option N :=
  option_map (fun m => int_of_digits (m_group1 m)) (re_search re_version content).

Definition check_version (content : str) : M unit :=
  when (negb (startswith (txt "//@version") (strip content))) (warn msg_should_start) ;;
  match find_version content with
  | Some version =>
      if (version <? 5)%N then warn (msg_outdated version)
      else if (6 <? version)%N then warn (msg_newer version)
      else skip
  | None => warn msg_no_version
  end.

(** *** Indicator or strategy declaration *)

Definition msg_no_declaration : str := txt "No indicator or strategy declaration found".

(** [(?:indicator|strategy)\s*\(] *)
Definition re_declaration : re :=
  seqs [Alt (Lit (txt "indicator")) (Lit (txt "strategy")); Star isspace; ch "("].

Definition check_declaration (content : str) : M unit :=
  when (negb (found (re_search re_declaration content))) (err msg_no_declaration).

(** *** Multiline comments and multiline constructs *)

Definition msg_multiline_comment : str :=
  txt "Multiline comments (/* ... */) detected. Use single-line comments (//) instead".
Definition msg_multiline_array : str :=
  txt "Multiline array in function call detected. Keep arrays on single line or use different formatting".
Definition msg_multiline_call : str :=
  txt "Complex multiline function call detected - verify syntax carefully".

(** [options=\s*\[[^\]]*\n] *)
Definition re_multiline_array : re :=
  seqs [Lit (txt "options="); Star isspace; ch "["; Star (not_ch "]"); ch nl].

(** [\w+\([^)]*\n.*\w+.*\n.*[^)]*\)] *)
Definition re_multiline_param : re :=
  seqs [Plus isword; ch "("; Star (not_ch ")"); ch nl; Star dot; Plus isword;
        Star dot; ch nl; Star dot; Star (not_ch ")"); ch ")"].

Definition check_multiline_forms (content : str) : M unit :=
  when (contains (txt "/*") content || contains (txt "*/") content)
    (err msg_multiline_comment) ;;
  when (found (re_search re_multiline_array content)) (err msg_multiline_array) ;;
  when (found (re_search re_multiline_param content)) (warn msg_multiline_call).

(** *** Incomplete ternary operators *)

Definition msg_ternary (i : nat) : str :=
  txt "Line " ++ str_of_nat i
  ++ txt ": Incomplete ternary operator. Ternary expressions should be completed with ':' and false value".

(** The body of the loop for line number [i]; [lines_list[i]] is the line
    after it, since [i] counts from 1. *)
Definition ternary_line (lines_list : list str) (il : nat * str) : M unit :=
  let i := fst il in
  let stripped := strip (snd il) in
  when (endswith (txt "?") stripped
        && negb (count (txt "?") stripped =? count (txt ":") stripped))
    (when (i <? length lines_list - 1)
       (match nth_error lines_list i with
        | Some next =>
            let next_line := strip next in
            when (negb (contains (txt ":") next_line || contains (txt "?") next_line))
              (err (msg_ternary i))
        | None => skip
        end)).

Definition check_ternary (lines_list : list str) : M unit :=
  for_each (enumerate1 lines_list) (ternary_line lines_list).

(** *** Multiline function calls *)

(** The local variables of the scan. *)
Record tracker : Type := Tracker {
  open_parens : Z;
  multiline_start : nat;
  in_multiline_call : bool
}.

Definition tracker0 : tracker := Tracker 0 0 false.

Definition msg_extra_paren (i start : nat) : str :=
  txt "Line " ++ str_of_nat i
  ++ txt ": Extra closing parenthesis. Check multiline function call starting around line "
  ++ str_of_nat start.

Definition msg_unclosed_paren (n start : nat) : str :=
  txt "Line " ++ str_of_nat n
  ++ txt ": Unclosed parenthesis. Multiline function call starting around line "
  ++ str_of_nat start ++ txt " is missing closing parenthesis".

(** Counting one character of line [i]. *)
Definition tracker_char (i : nat) (t : tracker) (char : ascii) : tracker :=
  if chr_is "(" char then
    Tracker (open_parens t + 1)
      (if in_multiline_call t then multiline_start t else i) true
  else if chr_is ")" char then
    Tracker (open_parens t - 1) (multiline_start t) (in_multiline_call t)
  else t.

Definition tracker_count (i : nat) (stripped : str) (t : tracker) : tracker :=
  fold_left (tracker_char i) stripped t.

(** The [if]/[elif] chain at the end of the loop body. *)
Definition tracker_close (i : nat) (t : tracker) : M tracker :=
  if in_multiline_call t && (open_parens t =? 0)%Z then
    ret (Tracker (open_parens t) (multiline_start t) false)
  else if in_multiline_call t && (multiline_start t <? i) && (0 <? open_parens t)%Z then
    ret t
  else if in_multiline_call t && (open_parens t <? 0)%Z then
    err (msg_extra_paren i (multiline_start t)) ;;
    ret (Tracker 0 (multiline_start t) false)
  else ret t.

(** Whether the scan skips the line: a comment or an empty line. *)
Definition tracker_skips (stripped : str) : bool :=
  is_comment stripped || is_empty stripped.

Definition tracker_line (t : tracker) (il : nat * str) : M tracker :=
  let stripped := strip (snd il) in
  if tracker_skips stripped then ret t
  else tracker_close (fst il) (tracker_count (fst il) stripped t).

Definition tracker_scan (lines_list : list str) : M tracker :=
  for_fold (enumerate1 lines_list) tracker_line tracker0.

Definition check_multiline_calls (lines_list : list str) : M unit :=
  t <- tracker_scan lines_list ;;
  when (0 <? open_parens t)%Z
    (err (msg_unclosed_paren (length lines_list) (multiline_start t))).

(** *** Reserved keywords and invalid types *)

Definition reserved_keywords : list str :=
  map txt
    ["range"; "break"; "continue"; "delete"; "new"; "this"; "super";
     "class"; "interface"; "extends"; "implements"; "public"; "private";
     "protected"; "static"; "final"; "const"; "var"; "if"; "else"; "for";
     "while"; "switch"; "case"; "default"; "try"; "catch"; "throw";
     "return"; "function"; "method"; "property"]%string.

Definition msg_reserved (keyword : str) : str :=
  txt "Reserved keyword '" ++ keyword ++ txt "' used as variable name. Choose a different name".

(** [\b{keyword}\s*=] *)
Definition re_reserved (keyword : str) : re :=
  seqs [WordB; Lit keyword; Star isspace; ch "="].

Definition check_reserved (content : str) : M unit :=
  for_each reserved_keywords (fun keyword =>
    when (found (re_search (re_reserved keyword) content)) (err (msg_reserved keyword))).

(** The entry for string arrays is written with its backslashes in the
    program, and [re.escape] escapes them once more: the pattern matches the
    entry character for character. *)
Definition invalid_types : list str :=
  map txt
    ["int64"; "uint"; "uint8"; "uint16"; "uint32"; "uint64";
     "byte"; "double"; "char"; "string\[\]";
     "boolean"; "Integer"; "Float"; "String"; "Boolean"]%string.

Definition msg_invalid_type (invalid_type : str) : str :=
  txt "Invalid Pine Script data type '" ++ invalid_type
  ++ txt "'. Use 'int', 'float', 'bool', 'string', 'color', or 'label' instead".

(** [\b{re.escape(invalid_type)}\b] *)
Definition re_invalid_type (invalid_type : str) : re :=
  seqs [WordB; Lit invalid_type; WordB].

Definition check_invalid_types (content : str) : M unit :=
  for_each invalid_types (fun invalid_type =>
    when (found (re_search (re_invalid_type invalid_type) content))
      (err (msg_invalid_type invalid_type))).

(** [var\s+\w+\s+(\w+)\s*=] *)
Definition re_var_decl : re :=
  seqs [Lit (txt "var"); Plus isspace; Plus isword; Plus isspace;
        Grp (Plus isword); Star isspace; ch "="].

(** The list [global_vars]; the program builds it and never reads it. *)
Definition global_vars (lines : list str) : list str :=
  flat_map (fun line =>
    let stripped := strip line in
    if startswith (txt "var ") stripped && contains (txt "=") stripped then
      match re_match re_var_decl stripped with
      | Some m => [m_group1 m]
      | None => []
      end
    else []) lines.

(** *** Mathematical functions without the [math.] prefix *)

Definition math_functions : list str :=
  map txt
    ["sin"; "cos"; "tan"; "asin"; "acos"; "atan"; "sinh"; "cosh"; "tanh";
     "sqrt"; "log"; "log10"; "exp"; "pow"; "abs"; "round"; "ceil"; "floor";
     "max"; "min"]%string.

Definition msg_math (i : nat) (func : str) : str :=
  txt "Line " ++ str_of_nat i ++ txt ": Mathematical function '" ++ func
  ++ txt "()' should use 'math." ++ func ++ txt "()' in Pine Script v6".

(** The text of the pattern, [rf'\b{func}\s*\(']: the program tests it with
    [pattern in line], a substring test on the text itself. *)
Definition math_pattern (func : str) : str := txt "\b" ++ func ++ txt "\s*\(".

(** [\b(strategy|color|label|table|plot|fill)\.] followed by [func] *)
Definition re_namespaced (func : str) : re :=
  seqs [WordB;
        Grp (alts [Lit (txt "strategy"); Lit (txt "color"); Lit (txt "label");
                   Lit (txt "table"); Lit (txt "plot"); Lit (txt "fill")]);
        ch "."; Lit func].

Definition math_line (func : str) (il : nat * str) : M unit :=
  let i := fst il in
  let line := snd il in
  when (contains (math_pattern func) line
        && negb (is_comment (strip line))
        && negb (contains (txt "math." ++ func) line))
    (when (negb (found (re_search (re_namespaced func) line)))
       (warn (msg_math i func))).

Definition check_math (lines : list str) : M unit :=
  for_each math_functions (fun func =>
    for_each (enumerate1 lines) (math_line func)).

(** *** [str.format_time] *)

Definition msg_format_time_time (i : nat) : str :=
  txt "Line " ++ str_of_nat i
  ++ txt ": str.format_time() may receive float timestamp from 'time'. Consider using math.round(time) to convert to int".
Definition msg_format_time_index (i : nat) : str :=
  txt "Line " ++ str_of_nat i
  ++ txt ": str.format_time() may receive float timestamp from 'time[]'. Consider using math.round() to convert to int".
Definition msg_format_time_int (i : nat) : str :=
  txt "Line " ++ str_of_nat i
  ++ txt ": str.format_time() expects series int (timestamp). Ensure argument is converted to int if needed".

(** [str\.format_time\s*\(\s*] *)
Definition re_format_time_open : list re :=
  [Lit (txt "str.format_time"); Star isspace; ch "("; Star isspace].

Definition re_format_time_time : re :=
  seqs (re_format_time_open ++ [Lit (txt "time"); WordB]).
Definition re_format_time_index : re :=
  seqs (re_format_time_open ++ [Star (not_ch2 "," ")"); Lit (txt "time[")]).
Definition re_format_time_any : re :=
  seqs (re_format_time_open ++ [Star (not_ch2 "," ")"); ch ")"]).
Definition re_format_time_round : re :=
  seqs (re_format_time_open ++ [Lit (txt "math.round(")]).

Definition format_time_line (il : nat * str) : M unit :=
  let i := fst il in
  let line := snd il in
  when (contains (txt "str.format_time(") line && negb (is_comment (strip line)))
    (if found (re_search re_format_time_time line) then warn (msg_format_time_time i)
     else if found (re_search re_format_time_index line) then warn (msg_format_time_index i)
     else if found (re_search re_format_time_any line)
             && negb (found (re_search re_format_time_round line))
     then warn (msg_format_time_int i)
     else skip).

Definition check_format_time (lines : list str) : M unit :=
  for_each (enumerate1 lines) format_time_line.

(** *** Plotting parameters, [random.float], migration hints *)

Definition msg_linestyle (i : nat) : str :=
  txt "Line " ++ str_of_nat i
  ++ txt ": Invalid plotting function parameter. Remove 'linestyle' parameter - not supported in Pine Script v6".

(** [[^,]+,] *)
Definition re_arg : re := Seq (Plus (not_ch ",")) (ch ",").

Definition invalid_plot_params : list re :=
  [ seqs [Lit (txt "hline("); re_arg; re_arg; re_arg; Star dot; Lit (txt "linestyle")];
    seqs [Lit (txt "plot("); re_arg; re_arg; Star dot; Lit (txt "linestyle")];
    seqs [Lit (txt "plotcandle("); re_arg; re_arg; re_arg; re_arg; re_arg;
          Star dot; Lit (txt "linestyle")] ].

Definition check_plot_params (lines : list str) : M unit :=
  for_each invalid_plot_params (fun pattern =>
    for_each (enumerate1 lines) (fun il =>
      when (found (re_search pattern (snd il)) && negb (is_comment (strip (snd il))))
        (err (msg_linestyle (fst il))))).

Definition msg_random_float (i : nat) : str :=
  txt "Line " ++ str_of_nat i
  ++ txt ": 'random.float()' is not available in Pine Script. Use deterministic alternatives like 'math.sin()' for testing".

Definition check_random_float (lines : list str) : M unit :=
  for_each (enumerate1 lines) (fun il =>
    when (contains (txt "random.float(") (snd il) && negb (is_comment (strip (snd il))))
      (err (msg_random_float (fst il)))).

Definition v6_issues : list (str * str) :=
  [ (txt "security(", txt "request.security(");
    (txt "plotchar(", txt "plotshape(");
    (txt "fill(", txt "fill.new(");
    (txt "hline(", txt "hline.new(") ].

Definition msg_v6 (i : nat) (old_func new_func : str) : str :=
  txt "Line " ++ str_of_nat i ++ txt ": '" ++ old_func ++ txt "' may need to be updated to '"
  ++ new_func ++ txt "' for Pine Script v6 compatibility".

Definition check_v6_issues (lines : list str) : M unit :=
  for_each v6_issues (fun on =>
    for_each (enumerate1 lines) (fun il =>
      when (contains (fst on) (snd il) && negb (is_comment (strip (snd il))))
        (warn (msg_v6 (fst il) (fst on) (snd on))))).

(** *** Whole-document heuristics *)

(** [any(op in content for op in ops)] *)
Definition any_in (ops : list str) (content : str) : bool :=
  existsb (fun op => contains op content) ops.

Definition array_operations : list str :=
  map txt ["array.push"; "array.pop"; "array.get"; "array.set"; "array.size"]%string.
Definition label_ops : list str :=
  map txt ["label.new"; "label.delete"; "label.get_text"; "label.set_text"]%string.
Definition box_ops : list str :=
  map txt ["box.new"; "box.delete"; "box.get_left"; "box.set_left"]%string.
Definition table_ops : list str :=
  map txt ["table.new"; "table.delete"; "table.cell"; "table.set_cell"]%string.

Definition msg_loops (loop_count : nat) : str :=
  txt "High number of loops detected (" ++ str_of_nat loop_count
  ++ txt ") - monitor performance and consider optimization".

Definition check_initialisation (content : str) : M unit :=
  when (any_in array_operations content && negb (contains (txt "array.new") content))
    (warn (txt "Array operations detected but no array.new() initialization found")) ;;
  when (any_in label_ops content && negb (contains (txt "var label") content))
    (warn (txt "Label operations detected - ensure proper label variable declarations")) ;;
  when (any_in box_ops content && negb (contains (txt "var box") content))
    (warn (txt "Box operations detected - ensure proper box variable declarations")) ;;
  when (any_in table_ops content && negb (contains (txt "var table") content))
    (warn (txt "Table operations detected - ensure proper table variable declarations")) ;;
  when (contains (txt "strategy.entry") content && negb (contains (txt "strategy.exit") content))
    (warn (txt "Strategy entries detected but no strategy exits found - check risk management")) ;;
  when (contains (txt "for ") content)
    (let loop_count := count (txt "for ") content in
     when (10 <? loop_count) (warn (msg_loops loop_count))).

Definition msg_division (line_num : nat) : str :=
  txt "Line " ++ str_of_nat line_num
  ++ txt ": Suspicious division operation detected - verify divisor cannot be zero".

(** [/\s*\(\s*\w+\s*] then the operator, then [\s*\w+\s*\)] *)
Definition re_division_by (op : ascii) : re :=
  seqs [ch "/"; Star isspace; ch "("; Star isspace; Plus isword; Star isspace;
        ch op; Star isspace; Plus isword; Star isspace; ch ")"].

Definition suspicious_divisions : list re :=
  [ re_division_by "-"; re_division_by "+";
    seqs [ch "/"; Star isspace; Plus isword; Star isspace; Eol] ].

(** [content[:match.start()].count('\n') + 1]: the text before the match
    is kept nearest character first, which does not change the count. *)
Definition line_of_match (m : rmatched) : nat :=
  count [nl] (before (m_start m)) + 1.

Definition check_divisions (content : str) : M unit :=
  for_each suspicious_divisions (fun pattern =>
    for_each (re_finditer pattern content) (fun m =>
      warn (msg_division (line_of_match m)))).

(** [for\s+\w+\s*=\s*\d+\s+to\s+\w+] and [while\s+\w+\s*<] *)
Definition loop_patterns : list re :=
  [ seqs [Lit (txt "for"); Plus isspace; Plus isword; Star isspace; ch "=";
          Star isspace; Plus isdigit; Plus isspace; Lit (txt "to"); Plus isspace;
          Plus isword];
    seqs [Lit (txt "while"); Plus isspace; Plus isword; Star isspace; ch "<"] ].

Definition check_usage (content : str) : M unit :=
  when (contains (txt "request.security") content && negb (contains (txt "na(") content))
    (warn (txt "request.security() calls detected but no na() error handling found - consider adding error handling")) ;;
  when (contains (txt "var ") content && contains (txt "label.new") content)
    (warn (txt "Global label variables detected - ensure labels are properly managed to avoid memory leaks")) ;;
  when (contains (txt "array.get(") content && negb (contains (txt "array.size(") content))
    (warn (txt "Array access operations detected - ensure proper bounds checking with array.size()")) ;;
  for_each loop_patterns (fun pattern =>
    when (found (re_search pattern content))
      (warn (txt "Loop with variable bounds detected - ensure termination conditions are met"))).

(** *** Duplicate declarations *)

(** The dictionary [declared_vars]: a name and the line that recorded it. *)
Abbreviation declared := (gmap str nat).

Definition msg_already_defined (i : nat) (var_name : str) (first : nat) : str :=
  txt "Line " ++ str_of_nat i ++ txt ": Variable '" ++ var_name
  ++ txt "' is already defined on line " ++ str_of_nat first.

(** [^\s*\w+\s*[:=]] and [^\s*(\w+)\s*[:=]] *)
Definition re_assign : re :=
  seqs [Bol; Star isspace; Plus isword; Star isspace; Cls (either_ch ":" "=")].
Definition re_assign_name : re :=
  seqs [Bol; Star isspace; Grp (Plus isword); Star isspace; Cls (either_ch ":" "=")].

(** What a line is for the declaration pass. *)
Inductive decl_kind : Type :=
| VarDecl (var_name : str)
| Assign (var_name : str)
| NoDecl.

(** The tests of the loop body on the stripped line, in the program's
    order: the [var] branch first, the assignment branch otherwise. *)
Definition classify (stripped : str) : decl_kind :=
  if negb (is_empty stripped) && negb (is_comment stripped) then
    if startswith (txt "var ") stripped then
      match re_match re_var_decl stripped with
      | Some m => VarDecl (m_group1 m)
      | None => NoDecl
      end
    else if found (re_match re_assign stripped)
            && negb (startswith (txt "var ") stripped) then
      match re_match re_assign_name stripped with
      | Some m => Assign (m_group1 m)
      | None => NoDecl
      end
    else NoDecl
  else NoDecl.

Definition declare_line (declared_vars : declared) (il : nat * str) : M declared :=
  let i := fst il in
  match classify (strip (snd il)) with
  | VarDecl var_name =>
      match declared_vars !! var_name with
      | Some first => err (msg_already_defined i var_name first) ;; ret declared_vars
      | None => ret (<[var_name := i]> declared_vars)
      end
  | Assign var_name =>
      match declared_vars !! var_name with
      | Some _ => ret declared_vars
      | None => ret (<[var_name := i]> declared_vars)
      end
  | NoDecl => ret declared_vars
  end.

Definition declare_scan (lines : list str) : M declared :=
  for_fold (enumerate1 lines) declare_line ∅.

Definition check_duplicates (lines : list str) : M unit :=
  declare_scan lines ;; skip.

(** *** Undeclared identifiers *)

(** [\b{var_name}\b] *)
Definition re_word (var_name : str) : re := seqs [WordB; Lit var_name; WordB].

(** The pairs of a pattern and the name it is for. *)
Definition common_undeclared_patterns : list (re * str) :=
  map (fun var_name => (re_word var_name, var_name))
    (map txt ["minCycleLength"; "maxCycleLength"; "currCycleBarCount";
              "currCycleLow"; "currCycleHigh"]%string).

Definition msg_undeclared (i : nat) (var_name : str) : str :=
  txt "Line " ++ str_of_nat i ++ txt ": Undeclared identifier '" ++ var_name
  ++ txt "' - variable used before declaration".

(** [^(\w+)\s*\([^)]*\)\s*=>] *)
Definition re_signature : re :=
  seqs [Bol; Grp (Plus isword); Star isspace; ch "("; Star (not_ch ")"); ch ")";
        Star isspace; Lit (txt "=>")].

Definition is_signature (stripped : str) : bool :=
  contains (txt "=>") stripped && found (re_match re_signature stripped).

(** [\b{var_name}\s*[:=]] and [\bvar\s+\w+\s+{var_name}\s*=] *)
Definition re_declares (var_name : str) : re :=
  seqs [WordB; Lit var_name; Star isspace; Cls (either_ch ":" "=")].
Definition re_var_declares (var_name : str) : re :=
  seqs [WordB; Lit (txt "var"); Plus isspace; Plus isword; Plus isspace;
        Lit var_name; Star isspace; ch "="].

Definition declares (var_name line : str) : bool :=
  found (re_search (re_declares var_name) line)
  || found (re_search (re_var_declares var_name) line).

(** The loop [for j in range(i)] with its [break]: whether one of
    [lines[0]], ..., [lines[i-1]] declares the name. *)
Definition declared_before (lines : list str) (i : nat) (var_name : str) : bool :=
  existsb (declares var_name) (firstn i lines).

Definition undeclared_line (lines : list str) (il : nat * str) : M unit :=
  let i := fst il in
  let stripped := strip (snd il) in
  when (negb (is_empty stripped) && negb (is_comment stripped)
        && negb (startswith (txt "//@") stripped))
    (if is_signature stripped then skip
     else
       for_each common_undeclared_patterns (fun pv =>
         let pattern := fst pv in
         let var_name := snd pv in
         when (found (re_search pattern stripped))
           (when (negb (declared_before lines i var_name))
              (err (msg_undeclared i var_name))))).

Definition check_undeclared (lines : list str) : M unit :=
  for_each (enumerate1 lines) (undeclared_line lines).

(** *** Calls, array access and semicolons *)

Definition msg_incomplete_call (i : nat) : str :=
  txt "Line " ++ str_of_nat i ++ txt ": Potential incomplete function call - check parentheses".
Definition msg_array_access (i : nat) : str :=
  txt "Line " ++ str_of_nat i ++ txt ": Array access syntax detected - ensure proper array operations".
Definition msg_semicolon (i : nat) (stripped : str) : str :=
  txt "Line " ++ str_of_nat i ++ txt ": Consider adding semicolon after function call: " ++ stripped.

(** [\b\w+\s*\([^)]*$] *)
Definition re_open_call : re :=
  seqs [WordB; Plus isword; Star isspace; ch "("; Star (not_ch ")"); Eol].

(** [\w+\[\s*\w+\s*\]\s*=] *)
Definition re_array_access : re :=
  seqs [Plus isword; ch "["; Star isspace; Plus isword; Star isspace; ch "]";
        Star isspace; ch "="].

(** [.*\w+\s*\(.*\)\s*$], the common tail of the three patterns *)
Definition re_call_tail : list re :=
  [Star dot; Plus isword; Star isspace; ch "("; Star dot; ch ")"; Star isspace; Eol].

Definition problematic_patterns : list re :=
  [ seqs ([Bol; Star isspace; Plus isword; Star isspace; ch "="] ++ re_call_tail);
    seqs ([Bol; Star isspace; Plus isword; Star isspace; Lit (txt ":=")] ++ re_call_tail);
    seqs ([Bol; Star isspace; Lit (txt "var"); Plus isspace; Plus isword; Star dot; ch "="]
          ++ re_call_tail) ].

Definition check_calls (lines : list str) : M unit :=
  for_each (enumerate1 lines) (fun il =>
    let stripped := strip (snd il) in
    when (negb (is_empty stripped) && negb (is_comment stripped))
      (when (found (re_search re_open_call stripped) && negb (endswith (txt ")") stripped))
         (warn (msg_incomplete_call (fst il))))) ;;
  for_each (enumerate1 lines) (fun il =>
    let stripped := strip (snd il) in
    when (negb (is_empty stripped) && negb (is_comment stripped))
      (when (found (re_search re_array_access stripped))
         (warn (msg_array_access (fst il))))).

(** The guard of the semicolon check. *)
Definition semicolon_candidate (stripped : str) : bool :=
  negb (is_empty stripped) && negb (is_comment stripped)
  && negb (startswith (txt "//@") stripped)
  && negb (endswith (txt ",") stripped) && negb (endswith (txt "{") stripped)
  && negb (endswith (txt "(") stripped) && negb (endswith (txt "}") stripped)
  && negb (endswith (txt ")") stripped) && negb (endswith (txt ":") stripped)
  && negb (startswith (txt "if") stripped) && negb (startswith (txt "else") stripped)
  && negb (startswith (txt "for") stripped).

(** The inner loop stops at the first pattern that matches. *)
Definition check_semicolons (lines : list str) : M unit :=
  for_each (enumerate1 lines) (fun il =>
    let stripped := strip (snd il) in
    when (semicolon_candidate stripped)
      (when (existsb (fun pattern => found (re_match pattern stripped)) problematic_patterns)
         (warn (msg_semicolon (fst il) stripped)))).

(** *** The whole of [check_basic_syntax] *)

Definition check_basic_syntax (content : str) (lines : list str) : M unit :=
  check_brackets lines ;;
  check_version content ;;
  check_declaration content ;;
  check_multiline_forms content ;;
  (let lines_list := split_lines content in
   check_ternary lines_list ;;
   check_multiline_calls lines_list) ;;
  check_reserved content ;;
  check_invalid_types content ;;
  check_math lines ;;
  check_format_time lines ;;
  check_plot_params lines ;;
  check_random_float lines ;;
  check_v6_issues lines ;;
  check_initialisation content ;;
  check_divisions content ;;
  check_usage content ;;
  check_duplicates lines ;;
  check_undeclared lines ;;
  check_calls lines ;;
  check_semicolons lines.

(** ** [check_common_issues] *)

Definition deprecated_funcs : list str := map txt ["security"; "plotchar"; "fill"]%string.

(** [\bvar\s+\w+\s*=], [\barray\.\w+], [\bif\s+\(] and [\bfor\s+] *)
Definition re_var_scoping : re :=
  seqs [WordB; Lit (txt "var"); Plus isspace; Plus isword; Star isspace; ch "="].
Definition re_array_usage : re := seqs [WordB; Lit (txt "array."); Plus isword].
Definition re_if_paren : re := seqs [WordB; Lit (txt "if"); Plus isspace; ch "("].
Definition re_for : re := seqs [WordB; Lit (txt "for"); Plus isspace].

Definition msg_loops_common (loop_count : nat) : str :=
  txt "High number of loops detected (" ++ str_of_nat loop_count ++ txt ") - monitor performance".

Definition check_common_issues (content : str) (lines : list str) : M unit :=
  let version := match find_version content with Some v => v | None => 5%N end in
  for_each deprecated_funcs (fun func =>
    when (contains (func ++ txt "(") content)
      (warn (txt "Using potentially deprecated function: " ++ func))) ;;
  for_each (re_findall re_var_scoping content) (fun decl =>
    warn (txt "Var declaration found: " ++ strip decl ++ txt " - ensure proper scoping")) ;;
  when (negb (is_empty (re_findall re_array_usage content))
        && negb (contains (txt "array.new") content))
    (warn (txt "Array operations detected but no array initialization found")) ;;
  when (contains (txt "/") content)
    (warn (txt "Division operations found - check for potential division by zero")) ;;
  when (6 <=? version)%N
    (when (contains (txt "request.security") content)
       (warn (txt "Using request.security - ensure proper error handling in v6")) ;;
     when (contains (txt "strategy.entry") content
           && negb (contains (txt "strategy.risk") content))
       (warn (txt "Strategy entries detected - consider using strategy.risk for better risk management in v6")) ;;
     when (contains (txt "matrix.") content)
       (when (negb (contains (txt "matrix.new") content))
          (warn (txt "Matrix operations detected but no matrix initialization found")))) ;;
  when (contains (txt "varip") content || contains (txt "var()") content)
    (warn (txt "Using varip or var() for variable persistence - ensure proper scoping")) ;;
  when (10 <? length (re_findall re_if_paren content))
    (warn (txt "High number of conditional statements - consider simplifying logic")) ;;
  (let loop_count := length (re_findall re_for content) in
   when (5 <? loop_count) (warn (msg_loops_common loop_count))).

(** ** [check_file] and [get_summary] *)

(** What opening and reading the file gives in a call of [check_file] that
    returns: the content, or one of the two exceptions that [check_file]
    catches.  Any other exception of [open] or [read], as for a directory or a
    file without permission, leaves [check_file] at once with nothing appended
    and no value returned. *)
Inductive read_result : Type :=
| ReadOk (content : str)
| FileNotFound
| UnicodeDecodeError.

Definition check_file (file_path : str) (r : read_result) : M bool :=
  match r with
  | FileNotFound => err (txt "File not found: " ++ file_path) ;; ret false
  | UnicodeDecodeError => err (txt "Encoding error in " ++ file_path) ;; ret false
  | ReadOk content =>
      let lines := split_lines content in
      check_basic_syntax content lines ;;
      check_common_issues content lines ;;
      fun st => (is_empty (errors st), st)
  end.

Record summary : Type := Summary {
  s_errors : nat;
  s_warnings : nat;
  s_passed : bool
}.

Definition get_summary (st : checker) : summary :=
  Summary (length (errors st)) (length (warnings st)) (is_empty (errors st)).

(** ** [main] *)

(** What [main] takes from its environment: the argument vector, whether a
    path exists, and what opening and reading a file gives. *)
Record environment : Type := Environment {
  argv : list str;
  path_exists : str -> bool;
  read_file : str -> read_result
}.

(** The exit status of [main].  What it prints has no part in it. *)
Definition main (env : environment) : nat :=
  if length (argv env) <? 2 then 1
  else
    let file_path := nth 1 (argv env) [] in
    if negb (path_exists env file_path) then 1
    else
      let checker := init in
      let summary :=
        get_summary (exec (check_file file_path (read_file env file_path)) checker) in
      if s_passed summary then 0 else 1.

(** ** [print_results] and what [main] prints *)

(** Printed text is kept as Unicode code points, one list for each call of
    [print], because the report uses characters beyond the eight bits of the
    checker's own strings: U+2705, U+274C and U+26A0 followed by U+FE0F. *)
Definition text : Type := list N.

Definition uni (s : str) : text := map N_of_ascii s.

Definition check_mark : text := [9989%N].
Definition cross_mark : text := [10060%N].
Definition warning_sign : text := [9888%N; 65039%N].

Definition no_issues_line : text := check_mark ++ uni (txt " No issues found!").

Definition errors_header (n : nat) : text :=
  uni [nl] ++ cross_mark ++ uni (txt " ERRORS (" ++ str_of_nat n ++ txt "):").

Definition warnings_header (n : nat) : text :=
  uni [nl] ++ warning_sign ++ uni (txt "  WARNINGS (" ++ str_of_nat n ++ txt "):").

Definition print_results (st : checker) : list text :=
  if is_empty (errors st) && is_empty (warnings st) then [no_issues_line]
  else
    (if negb (is_empty (errors st))
     then errors_header (length (errors st))
          :: map (fun error => uni (txt "  " ++ error)) (errors st)
     else [])
    ++
    (if negb (is_empty (warnings st))
     then warnings_header (length (warnings st))
          :: map (fun warning => uni (txt "  " ++ warning)) (warnings st)
     else []).

Definition passed_line (warnings : nat) : text :=
  uni [nl] ++ check_mark
  ++ uni (txt " Syntax check passed! (" ++ str_of_nat warnings ++ txt " warnings)").

Definition failed_line (errors warnings : nat) : text :=
  uni [nl] ++ cross_mark
  ++ uni (txt " Syntax check failed! (" ++ str_of_nat errors ++ txt " errors, "
          ++ str_of_nat warnings ++ txt " warnings)").

(** What [main] prints, in order, the line that [check_file] prints when it
    starts included; its exit status is [main] above. *)
Definition main_prints (env : environment) : list text :=
  if length (argv env) <? 2 then
    [ uni (txt "Usage: python pine-syntax-checker.py <pine_script_file>");
      uni (txt "Example: python pine-syntax-checker.py bitcoin-cycles-indicator.pine") ]
  else
    let file_path := nth 1 (argv env) [] in
    if negb (path_exists env file_path) then
      [ cross_mark ++ uni (txt " File not found: " ++ file_path) ]
    else
      let checker := exec (check_file file_path (read_file env file_path)) init in
      let summary := get_summary checker in
      uni (txt "Checking " ++ file_path ++ txt "...")
      :: print_results checker
      ++ [ if s_passed summary then passed_line (s_warnings summary)
           else failed_line (s_errors summary) (s_warnings summary) ].

(** ** Vocabulary of the statements *)

(** What a run adds to a checker: [extend st out] is [st] with the messages
    of [out] appended. *)
Definition extend (st out : checker) : checker :=
  Checker (errors st ++ errors out) (warnings st ++ warnings out).

(** A computation that only appends: from any checker it returns what it
    returns from a fresh one, and leaves the checker extended by what it
    adds to a fresh one. *)
Definition appender {A} (m : M A) : Prop :=
  forall st, m st = (eval m init, extend st (exec m init)).

(** Correct nesting of the three bracket pairs in a sequence of characters;
    every other character is transparent. *)
Inductive nested : str -> Prop :=
| nested_nil : nested []
| nested_other c s :
    brackets c = None -> is_closing c = false -> nested s -> nested (c :: s)
| nested_pair o c s1 s2 :
    brackets o = Some c -> nested s1 -> nested s2 -> nested (o :: s1 ++ c :: s2).
Arguments nested_other : clear implicits.
Arguments nested_pair : clear implicits.

(** The words a pattern matches: [lang r bef w aft] when [r] matches [w] with
    [bef] before it (nearest character first) and [aft] after it. *)
Fixpoint lang (r : re) (bef w aft : str) : Prop :=
  match r with
  | Eps => w = []
  | Cls p => exists a, w = [a] /\ p a = true
  | Lit l => w = l
  | Seq r1 r2 =>
      exists w1 w2, w = w1 ++ w2 /\ lang r1 bef w1 (w2 ++ aft)
                    /\ lang r2 (rev w1 ++ bef) w2 aft
  | Alt r1 r2 => lang r1 bef w aft \/ lang r2 bef w aft
  | Star p => forallb p w = true
  | Plus p => w <> [] /\ forallb p w = true
  | Bol => w = [] /\ bef = []
  | Eol => w = [] /\ at_end (Cursor bef aft None) = true
  | WordB => w = [] /\ at_word_boundary (Cursor bef aft None) = true
  | Grp r' => lang r' bef w aft
  end.

(** The pattern matches somewhere in the subject. *)
Definition occurs (r : re) (s : str) : Prop :=
  exists pre w aft, s = pre ++ w ++ aft /\ lang r (rev pre) w aft.

(** The loops from a given line number on. *)
Definition bracket_from (i : nat) (lines : list str) (stack : bracket_stack) : M bracket_stack :=
  for_fold (enumerate_from i lines) bracket_line stack.
Definition tracker_from (i : nat) (lines : list str) (t : tracker) : M tracker :=
  for_fold (enumerate_from i lines) tracker_line t.
Definition declare_from (i : nat) (lines : list str) (d : declared) : M declared :=
  for_fold (enumerate_from i lines) declare_line d.

(** What follows the line number in a message that starts with ["Line "]
    and a number. *)
Definition after_line_number (msg : str) : str := drop_while isdigit (skipn 5 msg).

(** The scan as one loop over the characters, each with its line number. *)
Definition tagged (i : nat) (lines : list str) : list (nat * ascii) :=
  flat_map (fun il => map (pair (fst il)) (snd il)) (enumerate_from i lines).

Definition bracket_step (stack : bracket_stack) (ic : nat * ascii) : M bracket_stack :=
  bracket_char (fst ic) stack (snd ic).

(** The messages of the scan are not those of the final test. *)
Definition not_unclosed (e : str) : Prop := forall l c, e <> msg_unclosed l c.

(** The entries of the stack are opening characters of the document, each
    with the line it stands on, the most recent on top. *)
Definition stack_ok (T : list (nat * ascii)) (bound : nat) (stack : bracket_stack) : Prop :=
  StronglySorted (fun a b => snd b <= snd a) stack
  /\ Forall (fun e => snd e <= bound) stack
  /\ Forall (fun e => In (snd e, fst e) T /\ brackets (fst e) <> None) stack.

(** The pattern that the text [math_pattern func] is written for,
    [\b{func}\s*\(]: the name as a word, then an opening parenthesis. *)
Definition re_math_call (func : str) : re :=
  seqs [WordB; Lit func; Star isspace; ch "("].

(** The names of the watch-list. *)
Definition watch_list : list str := map snd common_undeclared_patterns.

(** What one entry of the watch-list adds on a line that the check looks at. *)
Definition undeclared_name (lines : list str) (i : nat) (stripped : str) (pv : re * str) : M unit :=
  when (found (re_search (fst pv) stripped))
    (when (negb (declared_before lines i (snd pv))) (err (msg_undeclared i (snd pv)))).

(** A continuation whose failure does not depend on what group 1 holds. *)
Definition insensitive {A} (k : cursor -> option A) : Prop :=
  forall bef aft g g', k (Cursor bef aft g) = None -> k (Cursor bef aft g') = None.

(** The document has a declaration: [indicator] or [strategy], then optional
    space, then an opening parenthesis. *)
Definition has_declaration (content : str) : Prop :=
  exists a kw w b,
    content = a ++ kw ++ w ++ "("%char :: b
    /\ (kw = txt "indicator" \/ kw = txt "strategy")
    /\ forallb isspace w = true.

(** The document has a version directive: [//@version=] and a digit. *)
Definition has_directive (content : str) : Prop :=
  exists a d b, content = a ++ txt "//@version=" ++ d :: b /\ isdigit d = true.

(** What may follow the digits of a numeral: nothing, or a character that
    is not a digit. *)
Definition ends_number (rest : str) : bool :=
  match rest with
  | [] => true
  | c :: _ => negb (isdigit c)
  end.

(** What is left to read when the entries of a stack are still open: for
    each entry, top first, a nested run and then its closing character, and a
    nested run at the end. *)
Inductive completes : bracket_stack -> str -> Prop :=
| completes_nil s : nested s -> completes [] s
| completes_cons o i c stack n t :
    brackets o = Some c -> nested n -> completes stack t ->
    completes ((o, i) :: stack) (n ++ c :: t).
Arguments completes_nil : clear implicits.
Arguments completes_cons : clear implicits.

(** A computation that leaves the errors as they are. *)
Definition warns_only {A} (m : M A) : Prop :=
  forall st, errors (exec m st) = errors st.

(** Opening minus closing parentheses in a text. *)
Fixpoint paren_balance (s : str) : Z :=
  match s with
  | [] => 0
  | c :: t =>
      ((if chr_is "(" c then 1 else if chr_is ")" c then -1 else 0) + paren_balance t)%Z
  end.

(** What a line adds to the counter of the multiline scan: nothing when the
    scan skips it. *)
Definition line_balance (line : str) : Z :=
  if tracker_skips (strip line) then 0%Z else paren_balance (strip line).

Fixpoint running_balance (lines : list str) : Z :=
  match lines with
  | [] => 0
  | l :: t => (line_balance l + running_balance t)%Z
  end.

(** Whether a line declares a name for the declaration pass, by [var] or
    by assignment. *)
Definition declares_name (n line : str) : bool :=
  match classify (strip line) with
  | VarDecl v => bool_decide (v = n)
  | Assign v => bool_decide (v = n)
  | NoDecl => false
  end.

(** The number of the first line that declares a name, the first line of
    the list having number [i]. *)
Fixpoint first_declaring_from (i : nat) (n : str) (lines : list str) : option nat :=
  match lines with
  | [] => None
  | l :: t => if declares_name n l then Some i else first_declaring_from (S i) n t
  end.

(** The errors of the declaration pass, line by line: a [var] line whose
    name is first declared on an earlier line. *)
Definition duplicate_at (lines : list str) (jl : nat * str) : list str :=
  match classify (strip (snd jl)) with
  | VarDecl n =>
      match first_declaring_from 1 n lines with
      | Some f => if f <? fst jl then [msg_already_defined (fst jl) n f] else []
      | None => []
      end
  | _ => []
  end.

Definition duplicate_errors (lines : list str) : list str :=
  flat_map (duplicate_at lines) (enumerate1 lines).

(** The state between two lines while the counter has not gone below 0. *)
Definition tracker_steady (t : tracker) : Prop :=
  (0 <= open_parens t)%Z /\ (in_multiline_call t = false -> open_parens t = 0%Z).

(** A text at which a run of characters of a class stops: it is empty or
    its first character is not of the class. *)
Definition stops (p : ascii -> bool) (x : str) : bool :=
  match x with
  | [] => true
  | c :: _ => negb (p c)
  end.

(** The shape of a [var] declaration without a type: [var], white space
    that starts with a space, a name, optional white space, [=] and anything. *)
Definition untyped_var (name rest : str) (ws1 ws2 : str) : str :=
  txt "var " ++ ws1 ++ name ++ ws2 ++ "="%char :: rest.

(** The shape of a [var] declaration with a type: [var] and a space, more
    white space if any, a type, white space, a name, optional white space,
    [=] and anything. *)
Definition typed_var (ty name rest : str) (ws1 ws2 ws3 : str) : str :=
  txt "var " ++ ws1 ++ ty ++ ws2 ++ name ++ ws3 ++ "="%char :: rest.

(** The first directive of a document: the text [a] before it has no
    directive, and [ds] is the whole of its numeral. *)
Definition first_directive (content a ds rest : str) : Prop :=
  content = a ++ txt "//@version=" ++ ds ++ rest
  /\ ~ has_directive a
  /\ ds <> [] /\ forallb isdigit ds = true /\ ends_number rest = true.

(** * Properties *)

Unset Implicit Arguments.

(** ** The monad *)

Lemma extend_init_r st : extend st init = st.
Proof. destruct st; unfold extend; simpl; rewrite !app_nil_r; reflexivity. Qed.

Lemma extend_assoc a b c : extend (extend a b) c = extend a (extend b c).
Proof. unfold extend; simpl; rewrite !app_assoc; reflexivity. Qed.

Lemma appender_ret {A} (x : A) : appender (ret x).
Proof. intros st; unfold ret, eval, exec; simpl; rewrite extend_init_r; reflexivity. Qed.

Lemma appender_err x : appender (err x).
Proof. intros st; unfold err, eval, exec, extend; simpl; rewrite app_nil_r; reflexivity. Qed.

Lemma appender_warn x : appender (warn x).
Proof. intros st; unfold warn, eval, exec, extend; simpl; rewrite app_nil_r; reflexivity. Qed.

Lemma appender_bind {A B} (m : M A) (f : A -> M B) :
  appender m -> (forall x, appender (f x)) -> appender (bind m f).
Proof.
  intros Hm Hf st. unfold bind, eval, exec.
  rewrite (Hm st). destruct (m init) as [x o] eqn:E.
  unfold eval, exec; rewrite E; simpl.
  rewrite (Hf x (extend st o)), (Hf x o); simpl.
  rewrite extend_assoc; reflexivity.
Qed.

Lemma appender_skip : appender skip.
Proof. apply appender_ret. Qed.

Lemma appender_when b m : appender m -> appender (when b m).
Proof. destruct b; simpl; auto using appender_skip. Qed.

Lemma appender_for_each {A} (l : list A) body :
  (forall x, appender (body x)) -> appender (for_each l body).
Proof.
  intros H; induction l as [|x t IH]; simpl.
  - apply appender_skip.
  - apply appender_bind; auto.
Qed.

Lemma appender_for_fold {A S} (l : list A) (body : S -> A -> M S) :
  (forall s x, appender (body s x)) -> forall s, appender (for_fold l body s).
Proof.
  intros H; induction l as [|x t IH]; intros s; simpl.
  - apply appender_ret.
  - apply appender_bind; auto.
Qed.

Lemma appender_exec {A} (m : M A) st :
  appender m -> exec m st = extend st (exec m init).
Proof. intros H; unfold exec at 1; rewrite (H st); reflexivity. Qed.

Lemma bind_run {A B} (m : M A) (f : A -> M B) st :
  bind m f st = f (eval m st) (exec m st).
Proof. unfold bind, eval, exec; destruct (m st); reflexivity. Qed.

Lemma exec_bind {A B} (m : M A) (f : A -> M B) st :
  exec (bind m f) st = exec (f (eval m st)) (exec m st).
Proof. unfold exec at 1; rewrite bind_run; reflexivity. Qed.

(** Goals of the form [appender m], by the shape of [m]; the checks already
    treated are in the hint database. *)
Create HintDb appenders.

Ltac appends :=
  repeat lazymatch goal with
    | |- forall _, _ => intro
    | |- appender (bind _ _) => apply appender_bind
    | |- appender (ret _) => apply appender_ret
    | |- appender skip => apply appender_skip
    | |- appender (err _) => apply appender_err
    | |- appender (warn _) => apply appender_warn
    | |- appender (when _ _) => apply appender_when
    | |- appender (for_each _ _) => apply appender_for_each
    | |- appender (for_fold _ _ _) => apply appender_for_fold
    | |- appender (match ?x with _ => _ end) => destruct x
    | |- appender (let _ := _ in _) => cbv zeta
    | |- appender _ => solve [auto with appenders]
    end.

Lemma appender_check_brackets lines : appender (check_brackets lines).
Proof. unfold check_brackets, bracket_scan, bracket_line, bracket_char; appends. Qed.

Lemma appender_check_version content : appender (check_version content).
Proof. unfold check_version; appends. Qed.

Lemma appender_check_declaration content : appender (check_declaration content).
Proof. unfold check_declaration; appends. Qed.

Lemma appender_check_multiline_forms content : appender (check_multiline_forms content).
Proof. unfold check_multiline_forms; appends. Qed.

Lemma appender_check_ternary lines_list : appender (check_ternary lines_list).
Proof. unfold check_ternary, ternary_line; appends. Qed.

Lemma appender_tracker_from i lines t : appender (tracker_from i lines t).
Proof. unfold tracker_from, tracker_line, tracker_close; appends. Qed.

Lemma appender_check_multiline_calls lines_list : appender (check_multiline_calls lines_list).
Proof.
  unfold check_multiline_calls, tracker_scan.
  apply appender_bind; [apply (appender_tracker_from 1 lines_list tracker0)|appends].
Qed.

Lemma appender_check_reserved content : appender (check_reserved content).
Proof. unfold check_reserved; appends. Qed.

Lemma appender_check_invalid_types content : appender (check_invalid_types content).
Proof. unfold check_invalid_types; appends. Qed.

Lemma appender_check_math lines : appender (check_math lines).
Proof. unfold check_math, math_line; appends. Qed.

Lemma appender_check_format_time lines : appender (check_format_time lines).
Proof. unfold check_format_time, format_time_line; appends. Qed.

Lemma appender_check_plot_params lines : appender (check_plot_params lines).
Proof. unfold check_plot_params; appends. Qed.

Lemma appender_check_random_float lines : appender (check_random_float lines).
Proof. unfold check_random_float; appends. Qed.

Lemma appender_check_v6_issues lines : appender (check_v6_issues lines).
Proof. unfold check_v6_issues; appends. Qed.

Lemma appender_check_initialisation content : appender (check_initialisation content).
Proof. unfold check_initialisation; appends. Qed.

Lemma appender_check_divisions content : appender (check_divisions content).
Proof. unfold check_divisions; appends. Qed.

Lemma appender_check_usage content : appender (check_usage content).
Proof. unfold check_usage; appends. Qed.

Lemma appender_declare_from i lines d : appender (declare_from i lines d).
Proof. unfold declare_from, declare_line; appends. Qed.

Lemma appender_check_duplicates lines : appender (check_duplicates lines).
Proof.
  unfold check_duplicates, declare_scan.
  apply appender_bind; [apply (appender_declare_from 1)|appends].
Qed.

Lemma appender_check_undeclared lines : appender (check_undeclared lines).
Proof. unfold check_undeclared, undeclared_line; appends. Qed.

Lemma appender_check_calls lines : appender (check_calls lines).
Proof. unfold check_calls; appends. Qed.

Lemma appender_check_semicolons lines : appender (check_semicolons lines).
Proof. unfold check_semicolons; appends. Qed.

#[global] Hint Resolve appender_check_brackets appender_check_version appender_check_declaration appender_check_multiline_forms appender_check_ternary appender_tracker_from appender_check_multiline_calls appender_check_reserved appender_check_invalid_types appender_check_math appender_check_format_time appender_check_plot_params appender_check_random_float appender_check_v6_issues appender_check_initialisation appender_check_divisions appender_check_usage appender_declare_from appender_check_duplicates appender_check_undeclared appender_check_calls appender_check_semicolons : appenders.

Lemma appender_check_basic_syntax content lines : appender (check_basic_syntax content lines).
Proof. unfold check_basic_syntax; appends. Qed.

Lemma appender_check_common_issues content lines : appender (check_common_issues content lines).
Proof. unfold check_common_issues; appends. Qed.

(** ** The lists of the checker only grow *)

Lemma is_empty_app {A} (l1 l2 : list A) :
  is_empty (l1 ++ l2) = is_empty l1 && is_empty l2.
Proof. destruct l1; reflexivity. Qed.

Lemma is_empty_false {A} (l : list A) : l <> [] -> is_empty l = false.
Proof. destruct l; [congruence|reflexivity]. Qed.

Lemma check_file_run path r st :
  check_file path r st =
  (is_empty (errors st) && eval (check_file path r) init,
   extend st (exec (check_file path r) init)).
Proof.
  destruct r as [content| |]; unfold check_file.
  - cbv zeta. set (lines := split_lines content).
    pose proof (appender_check_basic_syntax content lines) as Hb.
    pose proof (appender_check_common_issues content lines) as Hc.
    unfold eval, exec. rewrite !bind_run.
    rewrite (appender_exec _ st Hb).
    rewrite (appender_exec _ (extend st _) Hc).
    rewrite (appender_exec _ (exec _ init) Hc).
    simpl. rewrite !is_empty_app, !andb_assoc.
    unfold extend; simpl. rewrite !app_assoc. reflexivity.
  - rewrite bind_run. unfold eval, exec, err, ret, extend; simpl.
    rewrite andb_false_r, app_nil_r; reflexivity.
  - rewrite bind_run. unfold eval, exec, err, ret, extend; simpl.
    rewrite andb_false_r, app_nil_r; reflexivity.
Qed.

(** C10.  [check_file] never clears the two lists.  Called on a checker [st]
    that has already been used, it leaves [st] extended by exactly what the
    same call adds to a fresh checker; the summary then counts both runs and
    passes only if both are free of errors; the value returned is the
    conjunction of "no error so far" and the verdict of a fresh run, so once an
    error is recorded the call returns [false] and the list stays non-empty for
    the calls that follow. *)
Theorem check_file_accumulates (path : str) (r : read_result) (st : checker) :
  let fresh := exec (check_file path r) init in
  let st' := exec (check_file path r) st in
  errors st' = errors st ++ errors fresh /\
  warnings st' = warnings st ++ warnings fresh /\
  get_summary st' =
    Summary (length (errors st) + length (errors fresh))
            (length (warnings st) + length (warnings fresh))
            (is_empty (errors st) && is_empty (errors fresh)) /\
  eval (check_file path r) st
    = is_empty (errors st) && eval (check_file path r) init /\
  (errors st <> [] -> eval (check_file path r) st = false /\ errors st' <> []).
Proof.
  cbv zeta. unfold exec at 1 3 5, eval at 1 3. rewrite check_file_run. simpl.
  split; [reflexivity|]. split; [reflexivity|]. split; [|split; [reflexivity|]].
  - unfold get_summary, extend; simpl.
    rewrite !length_app, is_empty_app; reflexivity.
  - intros H. split.
    + rewrite (is_empty_false _ H); reflexivity.
    + intros H0. unfold exec in H0. rewrite check_file_run in H0. simpl in H0.
      apply app_eq_nil in H0. tauto.
Qed.

Lemma check_file_accumulates_witness :
  let used := exec (check_file (txt "missing.pine") FileNotFound) init in
  eval (check_file (txt "ok.pine") (ReadOk (txt "//@version=6" ++ [nl] ++ txt "indicator(1)"))) used
  = false.
Proof.
  cbv zeta.
  apply (check_file_accumulates (txt "ok.pine")
           (ReadOk (txt "//@version=6" ++ [nl] ++ txt "indicator(1)"))
           (exec (check_file (txt "missing.pine") FileNotFound) init)).
  vm_compute; discriminate.
Defined.

(** ** Loops *)

Lemma for_fold_app {A S} (l1 l2 : list A) (body : S -> A -> M S) s st :
  for_fold (l1 ++ l2) body s st =
  for_fold l2 body (eval (for_fold l1 body s) st) (exec (for_fold l1 body s) st).
Proof.
  revert s st; induction l1 as [|x t IH]; intros s st; simpl.
  - reflexivity.
  - rewrite bind_run, IH. unfold eval, exec. rewrite !bind_run. reflexivity.
Qed.

Lemma enumerate_from_app {A} (l1 l2 : list A) i :
  enumerate_from i (l1 ++ l2) = enumerate_from i l1 ++ enumerate_from (i + length l1) l2.
Proof.
  revert i; induction l1 as [|x t IH]; intros i; simpl.
  - rewrite Nat.add_0_r; reflexivity.
  - rewrite IH. do 3 f_equal. lia.
Qed.

Lemma enumerate_from_nth {A} (l : list A) i k x :
  nth_error l k = Some x -> In (i + k, x) (enumerate_from i l).
Proof.
  revert i k; induction l as [|y t IH]; intros i k H; destruct k; simpl in *; try discriminate.
  - injection H as ->. rewrite Nat.add_0_r. auto.
  - right. replace (i + S k) with (S i + k) by lia. auto.
Qed.

(** ** Decimal numerals *)

Lemma digits_of_uint (d : uint) :
  forallb isdigit (list_ascii_of_string (NilEmpty.string_of_uint d)) = true.
Proof. induction d; simpl; auto. Qed.

Lemma digits_str_of_nat n : forallb isdigit (str_of_nat n) = true.
Proof. apply digits_of_uint. Qed.

Lemma digits_str_of_N n : forallb isdigit (str_of_N n) = true.
Proof. apply digits_of_uint. Qed.

Lemma drop_while_app p (ds r : str) :
  forallb p ds = true -> drop_while p (ds ++ r) = drop_while p r.
Proof.
  induction ds as [|c t IH]; simpl; auto.
  intros H. apply andb_true_iff in H as [Hc Ht]. rewrite Hc. auto.
Qed.

Lemma after_line_number_eq n (r : str) :
  after_line_number (txt "Line " ++ str_of_nat n ++ r) = drop_while isdigit r.
Proof.
  unfold after_line_number. simpl. apply drop_while_app, digits_str_of_nat.
Qed.

(** ** Matching brackets *)

Lemma bracket_line_tagged i (line : str) stack st :
  bracket_line stack (i, line) st = for_fold (map (pair i) line) bracket_step stack st.
Proof.
  unfold bracket_line; simpl. revert stack st.
  induction line as [|c t IH]; intros stack st; simpl; [reflexivity|].
  rewrite !bind_run. apply IH.
Qed.

Lemma bracket_from_tagged i lines stack st :
  bracket_from i lines stack st = for_fold (tagged i lines) bracket_step stack st.
Proof.
  unfold bracket_from, tagged. revert i stack st.
  induction lines as [|l t IH]; intros i stack st; simpl; [reflexivity|].
  rewrite for_fold_app, bind_run.
  unfold eval, exec. rewrite bracket_line_tagged. apply IH.
Qed.

Lemma tagged_chars i lines : map snd (tagged i lines) = concat lines.
Proof.
  unfold tagged. revert i; induction lines as [|l t IH]; intros i; simpl; [reflexivity|].
  rewrite map_app, IH. f_equal.
  rewrite map_map; simpl. apply map_id.
Qed.

Lemma brackets_closing o c :
  brackets o = Some c -> brackets c = None /\ is_closing c = true.
Proof.
  unfold brackets.
  destruct (chr_is "(" o); [intros [= <-]; split; reflexivity|].
  destruct (chr_is "[" o); [intros [= <-]; split; reflexivity|].
  destruct (chr_is "{" o); [intros [= <-]; split; reflexivity|].
  discriminate.
Qed.

Lemma chr_is_eq a c : chr_is a c = true -> c = a.
Proof. unfold chr_is. intros H. apply Ascii.eqb_eq in H. auto. Qed.

Lemma chr_is_refl c : chr_is c c = true.
Proof. apply Ascii.eqb_refl. Qed.

Lemma for_fold_cons {A S} (x : A) (t : list A) (body : S -> A -> M S) s st :
  for_fold (x :: t) body s st =
  for_fold t body (eval (body s x) st) (exec (body s x) st).
Proof. simpl. apply bind_run. Qed.

Lemma bracket_step_other stack i c st :
  brackets c = None -> is_closing c = false -> bracket_step stack (i, c) st = (stack, st).
Proof. intros Hb Hc. unfold bracket_step, bracket_char; simpl. rewrite Hb, Hc. reflexivity. Qed.

Lemma bracket_step_open stack i o c st :
  brackets o = Some c -> bracket_step stack (i, o) st = ((o, i) :: stack, st).
Proof. intros Hb. unfold bracket_step, bracket_char; simpl. rewrite Hb. reflexivity. Qed.

Lemma bracket_step_close stack i j o c st :
  brackets o = Some c -> bracket_step ((o, i) :: stack) (j, c) st = (stack, st).
Proof.
  intros Hb. destruct (brackets_closing o c Hb) as [Hn Hcl].
  unfold bracket_step, bracket_char; simpl.
  rewrite Hn, Hcl, Hb, chr_is_refl. reflexivity.
Qed.

(** A correctly nested run of characters leaves the stack as it found it
    and reports nothing. *)
Lemma nested_scan s :
  nested s ->
  forall t, map snd t = s ->
  forall stack st, for_fold t bracket_step stack st = (stack, st).
Proof.
  induction 1 as [|c s Hb Hc Hn IH|o c s1 s2 Hb Hn1 IH1 Hn2 IH2]; intros t Ht stack st.
  - destruct t; [reflexivity|discriminate].
  - destruct t as [|[i c'] t]; [discriminate|]. simpl in Ht. injection Ht as -> Ht.
    rewrite for_fold_cons. unfold eval, exec.
    rewrite (bracket_step_other stack i c st Hb Hc). simpl. auto.
  - destruct t as [|[i o'] t]; [discriminate|]. simpl in Ht. injection Ht as -> Ht.
    apply map_eq_app in Ht as (t1 & t2' & -> & Ht1 & Ht2).
    destruct t2' as [|[j c'] t2]; [discriminate|]. simpl in Ht2. injection Ht2 as -> Ht2.
    rewrite for_fold_cons. unfold eval, exec.
    rewrite (bracket_step_open stack i o c st Hb). simpl.
    rewrite for_fold_app. unfold eval, exec. rewrite (IH1 t1 Ht1). cbn [fst snd].
    rewrite for_fold_cons. unfold eval, exec.
    rewrite (bracket_step_close stack i j o c st Hb). simpl.
    apply IH2, Ht2.
Qed.

(** C6.  When the characters of the document, line after line, are correctly
    nested, the bracket check reports nothing: the checker is left as it was,
    with no unexpected, mismatched or unclosed bracket added. *)
Theorem nested_no_findings (lines : list str) (st : checker) :
  nested (concat lines) -> exec (check_brackets lines) st = st.
Proof.
  intros H. unfold check_brackets, bracket_scan, exec. rewrite bind_run.
  change (for_fold (enumerate1 lines) bracket_line []) with (bracket_from 1 lines []).
  unfold eval, exec. rewrite bracket_from_tagged.
  rewrite (nested_scan _ H (tagged 1 lines) (tagged_chars 1 lines)). reflexivity.
Qed.

Lemma nested_no_findings_witness :
  exec (check_brackets [txt "f(a[1], {b})"; txt "g()"]) init = init.
Proof.
  apply (nested_no_findings [txt "f(a[1], {b})"; txt "g()"] init).
  change (nested (txt "f(a[1], {b})" ++ txt "g()")).
  apply nested_other; [reflexivity|reflexivity|].
  apply (nested_pair "(" ")" (txt "a[1], {b}") (txt "g()")); [reflexivity|..].
  - apply nested_other; [reflexivity|reflexivity|].
    apply (nested_pair "[" "]" (txt "1") (txt ", {b}")); [reflexivity|..].
    + apply nested_other; [reflexivity|reflexivity|]. apply nested_nil.
    + do 2 (apply nested_other; [reflexivity|reflexivity|]).
      apply (nested_pair "{" "}" (txt "b") []); [reflexivity|..].
      * apply nested_other; [reflexivity|reflexivity|]. apply nested_nil.
      * apply nested_nil.
  - apply nested_other; [reflexivity|reflexivity|].
    apply (nested_pair "(" ")" [] []); [reflexivity|apply nested_nil..].
Defined.

Lemma unexpected_not_unclosed i char : not_unclosed (msg_unexpected i char).
Proof.
  intros l c H. apply (f_equal after_line_number) in H.
  unfold msg_unexpected, msg_unclosed in H.
  rewrite !after_line_number_eq in H. discriminate H.
Qed.

Lemma mismatched_not_unclosed i o ol char : not_unclosed (msg_mismatched i o ol char).
Proof.
  intros l c H. apply (f_equal after_line_number) in H.
  unfold msg_mismatched, msg_unclosed in H.
  rewrite !after_line_number_eq in H. discriminate H.
Qed.

Lemma bracket_step_errors stack ic st :
  exists es, errors (exec (bracket_step stack ic) st) = errors st ++ es
             /\ Forall not_unclosed es.
Proof.
  destruct ic as [i c]. unfold bracket_step, bracket_char; simpl.
  destruct (brackets c).
  { exists []; rewrite app_nil_r; auto. }
  destruct (is_closing c); [|exists []; rewrite app_nil_r; auto].
  destruct stack as [|[o ol] stack'].
  { exists [msg_unexpected i c]; split; [reflexivity|].
    constructor; [apply unexpected_not_unclosed|constructor]. }
  destruct (match brackets o with Some closing => negb (chr_is closing c) | None => false end).
  - exists [msg_mismatched i o ol c]; split; [reflexivity|].
    constructor; [apply mismatched_not_unclosed|constructor].
  - exists []; rewrite app_nil_r; auto.
Qed.

Lemma bracket_scan_errors t stack st :
  exists es, errors (exec (for_fold t bracket_step stack) st) = errors st ++ es
             /\ Forall not_unclosed es.
Proof.
  revert stack st; induction t as [|ic t IH]; intros stack st.
  - exists []; simpl; rewrite app_nil_r; auto.
  - unfold exec. rewrite for_fold_cons.
    destruct (bracket_step_errors stack ic st) as (es1 & E1 & F1).
    destruct (IH (eval (bracket_step stack ic) st) (exec (bracket_step stack ic) st))
      as (es2 & E2 & F2).
    exists (es1 ++ es2). unfold exec in E2 at 1. rewrite E2, E1, app_assoc.
    split; [reflexivity|]. apply Forall_app; auto.
Qed.

Lemma stack_ok_step T b stack j c st :
  stack_ok T b stack -> b <= j -> In (j, c) T ->
  stack_ok T j (eval (bracket_step stack (j, c)) st).
Proof.
  intros (Hs & Hb & Ho) Hj Hin.
  assert (Hb' : Forall (fun e => snd e <= j) stack).
  { eapply Forall_impl; [exact Hb|]. simpl; intros; lia. }
  unfold bracket_step, bracket_char, eval; simpl.
  destruct (brackets c) eqn:Hc.
  { simpl. repeat split.
    - constructor; auto.
    - constructor; auto.
    - constructor; auto. simpl. split; [auto|congruence]. }
  assert (Hsame : stack_ok T j stack) by (repeat split; auto).
  destruct (is_closing c); [|exact Hsame].
  destruct stack as [|[o ol] stack']; [exact Hsame|].
  rewrite bind_run. simpl.
  repeat split.
  - inversion Hs; auto.
  - inversion Hb'; auto.
  - inversion Ho; auto.
Qed.

Lemma stack_ok_scan T t :
  StronglySorted (fun a b => fst a <= fst b) t ->
  forall b stack st,
    stack_ok T b stack -> Forall (fun x => b <= fst x) t -> incl t T ->
    exists b', stack_ok T b' (eval (for_fold t bracket_step stack) st).
Proof.
  induction 1 as [|[j c] t Hs IH Hle]; intros b stack st Hok Hb Hin.
  - exists b; exact Hok.
  - unfold eval. rewrite for_fold_cons.
    inversion Hb as [|? ? Hj Hb']; subst. simpl in Hj.
    apply (IH j).
    + apply (stack_ok_step T b); auto. apply Hin; left; reflexivity.
    + exact Hle.
    + intros x Hx. apply Hin; right; exact Hx.
Qed.

Lemma tagged_bounds i lines : Forall (fun x => i <= fst x) (tagged i lines).
Proof.
  unfold tagged. revert i; induction lines as [|l t IH]; intros i; simpl.
  - constructor.
  - apply Forall_app; split.
    + apply List.Forall_forall. intros x Hx. apply in_map_iff in Hx as (c & <- & _). simpl; lia.
    + eapply Forall_impl; [apply (IH (S i))|]. simpl; intros; lia.
Qed.

Lemma tagged_sorted i lines : StronglySorted (fun a b => fst a <= fst b) (tagged i lines).
Proof.
  unfold tagged. revert i; induction lines as [|l t IH]; intros i; simpl.
  - constructor.
  - pose proof (tagged_bounds (S i) t) as Hb. unfold tagged in Hb.
    induction l as [|c l IHl]; simpl.
    + apply IH.
    + constructor; [exact IHl|].
      apply Forall_app; split.
      * apply List.Forall_forall. intros x Hx. apply in_map_iff in Hx as (c' & <- & _). simpl; lia.
      * eapply Forall_impl; [exact Hb|]. simpl; intros; lia.
Qed.

Lemma tagged_line i lines l c :
  In (l, c) (tagged i lines) ->
  i <= l /\ exists text, nth_error lines (l - i) = Some text /\ In c text.
Proof.
  unfold tagged. revert i; induction lines as [|line t IH]; intros i; simpl; [tauto|].
  intros H. apply in_app_or in H as [H|H].
  - apply in_map_iff in H as (c' & [= <- <-] & Hc).
    split; [lia|]. exists line. rewrite Nat.sub_diag. auto.
  - apply IH in H as (Hl & text & Hn & Hc). split; [lia|].
    exists text. replace (l - i) with (S (l - S i)) by lia. auto.
Qed.

(** C5.  When the stack is not empty at the end of the document, the final
    test adds exactly one message, the "unclosed bracket" error of the entry on
    top of the stack; none of the messages of the scan before it is an
    "unclosed bracket" error.  The entry on top is an opening character that
    stands on the line the message names, and no entry below it was opened on
    a later line. *)
Theorem unclosed_reports_top (lines : list str) (char : ascii) (line : nat)
    (rest : bracket_stack) :
  eval (bracket_scan lines) init = (char, line) :: rest ->
  let scan_errors := errors (exec (bracket_scan lines) init) in
  errors (exec (check_brackets lines) init) = scan_errors ++ [msg_unclosed line char]
  /\ Forall not_unclosed scan_errors
  /\ 1 <= line
  /\ (exists text, nth_error lines (line - 1) = Some text /\ In char text)
  /\ brackets char <> None
  /\ Forall (fun e => snd e <= line) rest.
Proof.
  intros Hstack. cbv zeta.
  assert (Hscan : forall st, bracket_scan lines st
                             = for_fold (tagged 1 lines) bracket_step [] st).
  { intros st. apply (bracket_from_tagged 1 lines [] st). }
  split.
  { unfold check_brackets. rewrite exec_bind, Hstack. reflexivity. }
  split.
  { destruct (bracket_scan_errors (tagged 1 lines) [] init) as (es & E & F).
    unfold exec in *. rewrite Hscan, E. exact F. }
  destruct (stack_ok_scan (tagged 1 lines) (tagged 1 lines) (tagged_sorted 1 lines)
              1 [] init) as (b & Hs & Hb & Ho).
  { repeat split; constructor. }
  { apply tagged_bounds. }
  { apply incl_refl. }
  unfold eval in *. rewrite <- Hscan, Hstack in Hs, Hb, Ho.
  inversion Ho as [|? ? [Hin Hop] _]; subst. simpl in Hin, Hop.
  apply tagged_line in Hin as (Hl & text & Hn & Hc).
  split; [exact Hl|]. split; [exists text; auto|]. split; [exact Hop|].
  inversion Hs; subst. assumption.
Qed.

Lemma unclosed_reports_top_witness :
  errors (exec (check_brackets [txt "foo(a"]) init) = [txt "Line 1: Unclosed bracket '('"].
Proof.
  apply (unclosed_reports_top [txt "foo(a"] "(" 1 []). reflexivity.
Defined.

(** The converse for the bracket check: a scan that reports nothing and ends
    with an empty stack has read a correctly nested document, so that nesting
    is exactly the condition under which the check is silent. *)
Lemma completes_other stack c s :
  brackets c = None -> is_closing c = false -> completes stack s ->
  completes stack (c :: s).
Proof.
  intros Hb Hc H. destruct H as [s Hn|o i cl stack n t Ho Hn Ht].
  - apply completes_nil, nested_other; assumption.
  - change (c :: n ++ cl :: t) with ((c :: n) ++ cl :: t).
    apply completes_cons; [assumption| |assumption].
    apply nested_other; assumption.
Qed.

Lemma completes_open stack o i c s :
  brackets o = Some c -> completes ((o, i) :: stack) s -> completes stack (o :: s).
Proof.
  intros Hb H. inversion H as [|o' i' c' stack' n t Ho Hn Ht]; subst.
  assert (c' = c) by congruence. subst c'.
  destruct Ht as [t Hnt|o2 i2 c2 stack2 n2 t2 Ho2 Hn2 Ht2].
  - apply completes_nil, nested_pair; assumption.
  - replace (o :: n ++ c :: n2 ++ c2 :: t2) with ((o :: n ++ c :: n2) ++ c2 :: t2)
      by (simpl; rewrite <- app_assoc; reflexivity).
    apply completes_cons; [assumption| |assumption].
    apply nested_pair; assumption.
Qed.

Lemma errors_unchanged (l es : list str) : l ++ es = l -> es = [].
Proof.
  intros H. rewrite <- (app_nil_r l) in H at 2. apply app_inv_head in H. exact H.
Qed.

Lemma silent_scan_completes t :
  forall stack st,
    Forall (fun e => brackets (fst e) <> None) stack ->
    errors (exec (for_fold t bracket_step stack) st) = errors st ->
    eval (for_fold t bracket_step stack) st = [] ->
    completes stack (map snd t).
Proof.
  induction t as [|[i c] t IH]; intros stack st Hop He Hs.
  - simpl in Hs. unfold eval, ret in Hs. simpl in Hs. subst stack.
    apply completes_nil, nested_nil.
  - unfold exec in He. unfold eval in Hs. rewrite for_fold_cons in He, Hs.
    destruct (bracket_step_errors stack (i, c) st) as (es1 & E1 & _).
    destruct (bracket_scan_errors t (eval (bracket_step stack (i, c)) st)
                (exec (bracket_step stack (i, c)) st)) as (es2 & E2 & _).
    unfold exec in E2 at 1. rewrite E2, E1, <- app_assoc in He.
    apply errors_unchanged, app_eq_nil in He as [-> ->].
    rewrite app_nil_r in E1, E2.
    assert (IH' : Forall (fun e => brackets (fst e) <> None)
                    (eval (bracket_step stack (i, c)) st) ->
                  completes (eval (bracket_step stack (i, c)) st) (map snd t)).
    { intros Hop'. apply (IH _ (exec (bracket_step stack (i, c)) st) Hop').
      - unfold exec at 1. exact E2.
      - exact Hs. }
    clear IH Hs E2. simpl map. revert IH' E1.
    unfold bracket_step, bracket_char, eval, exec. simpl.
    destruct (brackets c) as [cl|] eqn:Hb.
    + simpl. intros IH _. apply (completes_open stack c i cl _ Hb). apply IH.
      constructor; [simpl; congruence|exact Hop].
    + destruct (is_closing c) eqn:Hc.
      * destruct stack as [|[o ol] stack'].
        -- rewrite bind_run. simpl. intros _ E1.
           apply errors_unchanged in E1. discriminate E1.
        -- inversion Hop as [|? ? Ho Hop']; subst. simpl in Ho.
           rewrite bind_run. destruct (brackets o) as [ocl|] eqn:Hbo; [|congruence].
           destruct (chr_is ocl c) eqn:Hm; simpl.
           ++ apply chr_is_eq in Hm. subst ocl. intros IH _.
              apply (completes_cons o ol c stack' [] (map snd t) Hbo nested_nil).
              apply IH, Hop'.
           ++ intros _ E1. apply errors_unchanged in E1. discriminate E1.
      * simpl. intros IH _. apply completes_other; [assumption..|]. apply IH, Hop.
Qed.

(** X9.  The bracket check is silent only on correctly nested documents:
    if it adds nothing to a fresh checker, the characters of the document,
    line after line, are correctly nested. *)
Lemma no_findings_nested (lines : list str) :
  exec (check_brackets lines) init = init -> nested (concat lines).
Proof.
  intros H.
  assert (Hscan : forall st, bracket_scan lines st
                             = for_fold (tagged 1 lines) bracket_step [] st).
  { intros st. apply (bracket_from_tagged 1 lines [] st). }
  unfold check_brackets in H. rewrite exec_bind in H.
  destruct (bracket_scan_errors (tagged 1 lines) [] init) as (es & E & _).
  assert (Hc : completes [] (map snd (tagged 1 lines))).
  { apply (silent_scan_completes _ [] init); [constructor|..].
    - destruct (eval (bracket_scan lines) init) as [|[ch l] rest] eqn:Es.
      + unfold exec in H. simpl in H. unfold exec. rewrite <- Hscan.
        unfold skip, ret in H. simpl in H. rewrite H. reflexivity.
      + exfalso. apply (f_equal errors) in H. unfold exec, err in H. simpl in H.
        destruct (errors (bracket_scan lines init).2); discriminate H.
    - destruct (eval (bracket_scan lines) init) as [|[ch l] rest] eqn:Es.
      + unfold eval in *. rewrite <- Hscan. exact Es.
      + exfalso. apply (f_equal errors) in H. unfold exec, err in H. simpl in H.
        destruct (errors (bracket_scan lines init).2); discriminate H. }
  rewrite tagged_chars in Hc. inversion Hc; assumption.
Qed.

(** ** Multiline function calls *)

Lemma tracker_scan_split pre line post t' st' :
  tracker_line (eval (tracker_scan pre) init) (S (length pre), line)
    (exec (tracker_scan pre) init) = (t', st') ->
  errors (exec (tracker_scan (pre ++ line :: post)) init)
    = errors st' ++ errors (exec (tracker_from (S (S (length pre))) post t') init)
  /\ eval (tracker_scan (pre ++ line :: post)) init
     = eval (tracker_from (S (S (length pre))) post t') init.
Proof.
  intros H.
  assert (E : tracker_scan (pre ++ line :: post) init
              = tracker_from (S (S (length pre))) post t' st').
  { unfold tracker_scan, tracker_from, enumerate1.
    rewrite enumerate_from_app, for_fold_app. simpl enumerate_from.
    rewrite for_fold_cons. replace (1 + length pre) with (S (length pre)) by lia.
    unfold tracker_scan, enumerate1 in H.
    unfold eval, exec in *. rewrite !H. reflexivity. }
  unfold exec at 1, eval at 1. rewrite E.
  rewrite (appender_tracker_from _ _ _ st'). simpl. auto.
Qed.

Lemma tracker_close_negative i t st :
  in_multiline_call t = true -> (open_parens t < 0)%Z ->
  tracker_close i t st =
  (Tracker 0 (multiline_start t) false,
   Checker (errors st ++ [msg_extra_paren i (multiline_start t)]) (warnings st)).
Proof.
  intros Hin Hneg. unfold tracker_close. rewrite Hin. simpl.
  destruct (Z.eqb_spec (open_parens t) 0); [lia|].
  destruct (Z.ltb_spec 0 (open_parens t)); [lia|]. rewrite andb_false_r.
  destruct (Z.ltb_spec (open_parens t) 0); [|lia].
  rewrite bind_run. reflexivity.
Qed.

Lemma tracker_close_idle i t st :
  in_multiline_call t = false -> tracker_close i t st = (t, st).
Proof. intros Hin. unfold tracker_close. rewrite Hin. reflexivity. Qed.

(** C3, as the program has it.  The test is made once per scanned line,
    after its parentheses are counted.  If the counter is then negative and
    the in-call flag is set, the line adds the "extra closing parenthesis"
    error that names the line and the recorded start line, the counter goes
    back to 0 and the flag to false, and the lines that follow are scanned
    from that state.  If the flag is not set, a negative counter adds nothing
    and is kept as it is for the lines that follow. *)
Theorem extra_paren_recovery (pre post : list str) (line : str) :
  let i := S (length pre) in
  let t := tracker_count i (strip line) (eval (tracker_scan pre) init) in
  tracker_skips (strip line) = false ->
  (open_parens t < 0)%Z ->
  (in_multiline_call t = true ->
     let reset := Tracker 0 (multiline_start t) false in
     errors (exec (tracker_scan (pre ++ line :: post)) init)
       = errors (exec (tracker_scan pre) init)
         ++ [msg_extra_paren i (multiline_start t)]
         ++ errors (exec (tracker_from (S i) post reset) init)
     /\ eval (tracker_scan (pre ++ line :: post)) init
        = eval (tracker_from (S i) post reset) init)
  /\ (in_multiline_call t = false ->
     errors (exec (tracker_scan (pre ++ line :: post)) init)
       = errors (exec (tracker_scan pre) init)
         ++ errors (exec (tracker_from (S i) post t) init)
     /\ eval (tracker_scan (pre ++ line :: post)) init
        = eval (tracker_from (S i) post t) init).
Proof.
  cbv zeta. intros Hskip Hneg.
  set (t0 := eval (tracker_scan pre) init) in *.
  set (t := tracker_count (S (length pre)) (strip line) t0) in *.
  assert (Hline : forall st, tracker_line t0 (S (length pre), line) st
                             = tracker_close (S (length pre)) t st).
  { intros st. unfold tracker_line. simpl. rewrite Hskip. reflexivity. }
  split; intros Hin.
  - pose proof (tracker_close_negative (S (length pre)) t
                  (exec (tracker_scan pre) init) Hin Hneg) as Hc.
    rewrite <- Hline in Hc.
    destruct (tracker_scan_split pre line post _ _ Hc) as [E1 E2].
    rewrite E1, E2. simpl. rewrite <- app_assoc. split; reflexivity.
  - pose proof (tracker_close_idle (S (length pre)) t
                  (exec (tracker_scan pre) init) Hin) as Hc.
    rewrite <- Hline in Hc.
    destruct (tracker_scan_split pre line post _ _ Hc) as [E1 E2].
    rewrite E1, E2. split; reflexivity.
Qed.

Lemma extra_paren_recovery_witness :
  (errors (exec (tracker_scan [txt "foo(a)"; txt "bar(b))"; txt "baz(c"]) init)
   = [txt "Line 2: Extra closing parenthesis. Check multiline function call starting around line 2"]
   /\ eval (tracker_scan [txt "foo(a)"; txt "bar(b))"; txt "baz(c"]) init = Tracker 1 3 true)
  /\ (errors (exec (tracker_scan [txt "x = 1"; txt ")"; txt "y = 2"]) init) = []
      /\ eval (tracker_scan [txt "x = 1"; txt ")"; txt "y = 2"]) init = Tracker (-1) 0 false).
Proof.
  split.
  - destruct (extra_paren_recovery [txt "foo(a)"] [txt "baz(c"] (txt "bar(b))")) as [H _].
    + reflexivity.
    + reflexivity.
    + exact (H eq_refl).
  - destruct (extra_paren_recovery [txt "x = 1"] [txt "y = 2"] (txt ")")) as [_ H].
    + reflexivity.
    + reflexivity.
    + exact (H eq_refl).
Defined.

(** The claim C3 fails when the flag is not set: a closing parenthesis alone
    on a line takes the counter to -1, nothing is reported and the counter is
    not put back to 0. *)
Lemma lone_closing_paren_unreported :
  let t := tracker_count 1 (strip (txt ")")) tracker0 in
  tracker_skips (strip (txt ")")) = false
  /\ (open_parens t < 0)%Z
  /\ in_multiline_call t = false
  /\ exec (check_multiline_calls [txt ")"]) init = init
  /\ open_parens (eval (tracker_scan [txt ")"]) init) = (-1)%Z.
Proof. vm_compute. repeat split. Qed.

(** ** Incomplete ternary operators *)

Lemma ternary_line_last_but_one lines_list line st :
  ternary_line lines_list (length lines_list - 1, line) st = (tt, st).
Proof.
  unfold ternary_line. simpl. rewrite Nat.ltb_irrefl.
  destruct (endswith _ _ && _); reflexivity.
Qed.

(** C4 at its failing input.  In the two-line document below the first line
    ends with [?], has one [?] and no [:], and the line after it has neither:
    the claim asks for an error at line 1.  The guard [i < len(lines_list) - 1]
    compares a line number that counts from 1 with an index bound, so it is
    false for the line before the last, of any document, and nothing is
    reported.  With one more line after them the same two lines do give the
    error. *)
Theorem ternary_second_to_last_silent :
  let lines_list := split_lines (txt "x = a ?" ++ [nl] ++ txt "foo") in
  lines_list = [txt "x = a ?"; txt "foo"]
  /\ endswith (txt "?") (strip (txt "x = a ?")) = true
  /\ count (txt "?") (strip (txt "x = a ?")) <> count (txt ":") (strip (txt "x = a ?"))
  /\ contains (txt ":") (strip (txt "foo")) = false
  /\ contains (txt "?") (strip (txt "foo")) = false
  /\ exec (check_ternary lines_list) init = init
  /\ (forall (l : list str) (line : str) (st : checker),
        ternary_line l (length l - 1, line) st = (tt, st))
  /\ errors (exec (check_ternary [txt "x = a ?"; txt "foo"; txt "bar"]) init)
     = [msg_ternary 1].
Proof.
  cbv zeta. repeat split; try reflexivity.
  - vm_compute. discriminate.
  - intros l line st. apply ternary_line_last_but_one.
Qed.

(** ** Mathematical functions *)

Lemma startswith_head c p s : startswith (c :: p) s = true -> In c s.
Proof.
  destruct s as [|b s]; simpl; [discriminate|].
  intros H. apply andb_true_iff in H as [H _].
  apply Ascii.eqb_eq in H. auto.
Qed.

Lemma contains_head c p s : contains (c :: p) s = true -> In c s.
Proof.
  induction s as [|b s IH]; intros H.
  - simpl in H. discriminate.
  - change (startswith (c :: p) (b :: s) || contains (c :: p) s = true) in H.
    apply orb_true_iff in H as [H|H].
    + apply (startswith_head c p), H.
    + right. auto.
Qed.

Lemma math_line_without_backslash func i line st :
  ~ In "\"%char line -> math_line func (i, line) st = (tt, st).
Proof.
  intros Hno. unfold math_line. simpl.
  destruct (contains (math_pattern func) line) eqn:E; [|reflexivity].
  exfalso. apply Hno. apply (contains_head _ _ _ E).
Qed.

(** C1 at its failing input.  On the line [y = sin(x)] the name [sin] is
    called without the [math.] prefix, outside a comment and outside the other
    namespaces, so the claim asks for one warning.  The program tests
    [pattern in line], a search for the text of the pattern itself, backslashes
    included: the test fails on every line that has no backslash, and the check
    adds nothing, as the whole of [check_file] shows on this document. *)
Theorem math_call_unreported :
  let line := txt "y = sin(x)" in
  found (re_search (re_math_call (txt "sin")) line) = true
  /\ is_comment (strip line) = false
  /\ contains (txt "math.sin") line = false
  /\ found (re_search (re_namespaced (txt "sin")) line) = false
  /\ exec (check_math [line]) init = init
  /\ warnings (exec (check_file (txt "a.pine") (ReadOk line)) init)
     = [msg_should_start; msg_no_version]
  /\ exec (check_math [txt "y = math.sin(x)"]) init = init
  /\ (forall func i (l : str) st,
        ~ In "\"%char l -> math_line func (i, l) st = (tt, st)).
Proof.
  cbv zeta. repeat split; try (vm_compute; reflexivity).
  intros func i l st. apply math_line_without_backslash.
Qed.

(** ** Duplicate declarations *)

Lemma declare_line_keeps d il st name first :
  d !! name = Some first -> eval (declare_line d il) st !! name = Some first.
Proof.
  intros H. unfold declare_line.
  destruct (classify (strip (snd il))) as [v|v|]; [| |exact H].
  - destruct (d !! v) eqn:E.
    + unfold eval. rewrite bind_run. exact H.
    + unfold eval, ret; cbn [fst]. rewrite lookup_insert_ne; [exact H|congruence].
  - destruct (d !! v) eqn:E; [exact H|].
    unfold eval, ret; cbn [fst]. rewrite lookup_insert_ne; [exact H|congruence].
Qed.

Lemma declare_from_keeps lines i d st name first :
  d !! name = Some first -> eval (declare_from i lines d) st !! name = Some first.
Proof.
  unfold declare_from. revert i d st.
  induction lines as [|l t IH]; intros i d st H; simpl; [exact H|].
  unfold eval. rewrite bind_run. apply IH. apply declare_line_keeps, H.
Qed.

Lemma declare_from_app l1 l2 i d st :
  declare_from i (l1 ++ l2) d st =
  declare_from (i + length l1) l2 (eval (declare_from i l1 d) st)
    (exec (declare_from i l1 d) st).
Proof. unfold declare_from. rewrite enumerate_from_app. apply for_fold_app. Qed.

Lemma declare_from_cons l t i d st :
  declare_from i (l :: t) d st =
  declare_from (S i) t (eval (declare_line d (i, l)) st) (exec (declare_line d (i, l)) st).
Proof. unfold declare_from. simpl enumerate_from. apply for_fold_cons. Qed.

Lemma declare_from_errors lines i d st :
  errors (exec (declare_from i lines d) st)
  = errors st ++ errors (exec (declare_from i lines d) init).
Proof. rewrite (appender_exec _ st (appender_declare_from i lines d)). reflexivity. Qed.

(** A [var] line for a name that is already recorded adds the error that
    names the recorded line, whatever comes after it. *)
Lemma redeclared_line_reported b post j d st name first :
  classify (strip b) = VarDecl name -> d !! name = Some first ->
  In (msg_already_defined j name first) (errors (exec (declare_from j (b :: post) d) st))
  /\ eval (declare_from j (b :: post) d) st !! name = Some first.
Proof.
  intros Hb Hd. unfold exec, eval. rewrite declare_from_cons.
  assert (E : declare_line d (j, b) st
              = (d, Checker (errors st ++ [msg_already_defined j name first]) (warnings st))).
  { unfold declare_line. simpl. rewrite Hb, Hd. rewrite bind_run. reflexivity. }
  unfold eval, exec. rewrite E. simpl. split.
  - change (In (msg_already_defined j name first)
              (errors (exec (declare_from (S j) post d)
                         (Checker (errors st ++ [msg_already_defined j name first])
                            (warnings st))))).
    rewrite declare_from_errors. simpl.
    apply in_or_app; left. apply in_or_app; right. left; reflexivity.
  - apply (declare_from_keeps post (S j) d _ name first Hd).
Qed.

(** C7.  The line recorded for a name is never replaced: a name that the
    scan of a prefix of the document has recorded keeps its line through the
    rest of the document.  So for a [var] declaration of a name on a line [a]
    and a later [var] declaration of the same name on a line [b], however far
    apart and whatever else stands between them, the line [b] adds the
    "already defined" error that names the line recorded for the name: the line
    of [a] itself when, as in a document that starts with [a], nothing before
    [a] has recorded the name. *)
Theorem redeclaration_reports_first (pre mid post : list str) (a b name : str) :
  classify (strip a) = VarDecl name ->
  classify (strip b) = VarDecl name ->
  let lines := pre ++ a :: mid ++ b :: post in
  let i := S (length pre) in
  let j := i + S (length mid) in
  let first := match eval (declare_scan pre) init !! name with
               | Some f => f
               | None => i
               end in
  In (msg_already_defined j name first) (errors (exec (declare_scan lines) init))
  /\ eval (declare_scan lines) init !! name = Some first
  /\ (forall (l1 l2 : list str) (n : str) (f : nat),
        eval (declare_scan l1) init !! n = Some f ->
        eval (declare_scan (l1 ++ l2)) init !! n = Some f).
Proof.
  intros Ha Hb. cbv zeta.
  assert (Hkeep : forall (l1 l2 : list str) (n : str) (f : nat),
             eval (declare_scan l1) init !! n = Some f ->
             eval (declare_scan (l1 ++ l2)) init !! n = Some f).
  { intros l1 l2 n f H. unfold declare_scan, eval, enumerate1 in *.
    change (for_fold (enumerate_from 1 (l1 ++ l2)) declare_line ∅)
      with (declare_from 1 (l1 ++ l2) ∅).
    rewrite declare_from_app. apply declare_from_keeps. exact H. }
  split; [|split; [|exact Hkeep]].
  - set (d0 := eval (declare_scan pre) init).
    set (first := match d0 !! name with Some f => f | None => S (length pre) end).
    unfold declare_scan, enumerate1, exec.
    change (for_fold (enumerate_from 1 (pre ++ a :: mid ++ b :: post)) declare_line ∅)
      with (declare_from 1 (pre ++ a :: mid ++ b :: post) ∅).
    rewrite declare_from_app, declare_from_cons.
    change (eval (declare_from 1 pre ∅) init) with d0.
    set (st0 := exec (declare_from 1 pre ∅) init).
    assert (Hd1 : eval (declare_line d0 (1 + length pre, a)) st0 !! name = Some first).
    { unfold declare_line, first. simpl. rewrite Ha.
      destruct (d0 !! name) eqn:E.
      - unfold eval. rewrite bind_run. exact E.
      - unfold eval, ret; cbn [fst]. apply lookup_insert_eq. }
    rewrite declare_from_app.
    replace (S (1 + length pre) + length mid) with (S (length pre) + S (length mid)) by lia.
    apply redeclared_line_reported; [exact Hb|].
    apply declare_from_keeps. exact Hd1.
  - set (d0 := eval (declare_scan pre) init).
    set (first := match d0 !! name with Some f => f | None => S (length pre) end).
    replace (pre ++ a :: mid ++ b :: post) with ((pre ++ [a]) ++ (mid ++ b :: post))
      by (rewrite <- app_assoc; reflexivity).
    apply Hkeep.
    unfold declare_scan, enumerate1, eval.
    change (for_fold (enumerate_from 1 (pre ++ [a])) declare_line ∅)
      with (declare_from 1 (pre ++ [a]) ∅).
    rewrite declare_from_app, declare_from_cons.
    change (eval (declare_from 1 pre ∅) init) with d0.
    unfold declare_from; simpl.
    change ((declare_line d0 (1 + length pre, a) (exec (declare_from 1 pre ∅) init)).1)
      with (eval (declare_line d0 (1 + length pre, a)) (exec (declare_from 1 pre ∅) init)).
    unfold declare_line, first. simpl. rewrite Ha.
    destruct (d0 !! name) eqn:E.
    + unfold eval. rewrite bind_run. exact E.
    + unfold eval, ret; cbn [fst]. apply lookup_insert_eq.
Qed.

Lemma redeclaration_reports_first_witness :
  In (txt "Line 4: Variable 'x' is already defined on line 1")
     (errors (exec (declare_scan [txt "var int x = 1"; txt "var int x = 2";
                                  txt "y = 0"; txt "var int x = 3"]) init)).
Proof.
  apply (redeclaration_reports_first [] [txt "var int x = 2"; txt "y = 0"] []
           (txt "var int x = 1") (txt "var int x = 3") (txt "x")).
  - vm_compute. reflexivity.
  - vm_compute. reflexivity.
Defined.

(** ** Undeclared identifiers *)

Lemma for_each_errors_in {A} (l : list A) (body : A -> M unit) (y : A) (e : str) st :
  (forall x, appender (body x)) -> In y l ->
  In e (errors (exec (body y) init)) ->
  In e (errors (exec (for_each l body) st)).
Proof.
  intros Happ. revert st. induction l as [|x t IH]; intros st Hy He; [destruct Hy|].
  simpl. rewrite exec_bind.
  destruct Hy as [->|Hy].
  - rewrite (appender_exec _ _ (appender_for_each t body Happ)).
    rewrite (appender_exec _ st (Happ y)). simpl.
    apply in_or_app; left. apply in_or_app; right. exact He.
  - apply IH; assumption.
Qed.

Lemma for_each_errors_inv {A} (l : list A) (body : A -> M unit) (e : str) st :
  (forall x, appender (body x)) ->
  In e (errors (exec (for_each l body) st)) ->
  In e (errors st) \/ exists x, In x l /\ In e (errors (exec (body x) init)).
Proof.
  intros Happ. revert st. induction l as [|x t IH]; intros st He.
  - left. exact He.
  - simpl in He. rewrite exec_bind in He. apply IH in He as [He|(y & Hy & He)].
    + rewrite (appender_exec _ st (Happ x)) in He. simpl in He.
      apply in_app_or in He as [He|He]; [left; exact He|].
      right. exists x. split; [left; reflexivity|exact He].
    + right. exists y. split; [right; exact Hy|exact He].
Qed.

Lemma declared_before_false lines i name :
  declared_before lines (S i) name = false <->
  (forall j l, j <= i -> nth_error lines j = Some l -> declares name l = false).
Proof.
  unfold declared_before. revert i. induction lines as [|x t IH]; intros i.
  - simpl. split; [|reflexivity]. intros _ j l _ H. destruct j; discriminate H.
  - simpl. rewrite orb_false_iff. split.
    + intros [Hx Ht] j l Hj Hn. destruct j as [|j]; simpl in Hn.
      * injection Hn as <-. exact Hx.
      * destruct i as [|i]; [lia|]. apply (proj1 (IH i) Ht j l); [lia|exact Hn].
    + intros H. split; [apply (H 0 x); [lia|reflexivity]|].
      destruct i as [|i]; [reflexivity|].
      apply IH. intros j l Hj Hn. apply (H (S j) l); [lia|exact Hn].
Qed.

Lemma not_comment_not_directive s :
  is_comment s = false -> startswith (txt "//@") s = false.
Proof.
  unfold is_comment. destruct s as [|a [|b t]]; try reflexivity.
  - simpl. rewrite andb_false_r. reflexivity.
  - change (chr_is "/" a && (chr_is "/" b && true) = false ->
            chr_is "/" a && (chr_is "/" b && startswith (txt "@") t) = false).
    destruct (chr_is "/" a), (chr_is "/" b); simpl; auto. discriminate.
Qed.

Lemma undeclared_line_examined lines i line st :
  is_empty (strip line) = false -> is_comment (strip line) = false ->
  is_signature (strip line) = false ->
  undeclared_line lines (i, line) st
  = for_each common_undeclared_patterns (undeclared_name lines i (strip line)) st.
Proof.
  intros He Hc Hs. unfold undeclared_line. cbn [fst snd].
  rewrite He, Hc, (not_comment_not_directive _ Hc), Hs. reflexivity.
Qed.

Lemma appender_undeclared_name lines i stripped pv :
  appender (undeclared_name lines i stripped pv).
Proof. unfold undeclared_name; appends. Qed.

Lemma pattern_of_entry pv :
  In pv common_undeclared_patterns -> fst pv = re_word (snd pv).
Proof.
  unfold common_undeclared_patterns. intros H.
  apply in_map_iff in H as (n & <- & _). reflexivity.
Qed.

Lemma watch_list_entry name :
  In name watch_list -> In (re_word name, name) common_undeclared_patterns.
Proof.
  unfold watch_list. intros H. apply in_map_iff in H as (pv & <- & H).
  rewrite <- (pattern_of_entry pv H). destruct pv; exact H.
Qed.

Lemma str_of_nat_inj n m : str_of_nat n = str_of_nat m -> n = m.
Proof.
  unfold str_of_nat. intros H.
  apply (f_equal string_of_list_ascii) in H.
  rewrite !string_of_list_ascii_of_string in H.
  apply (f_equal NilEmpty.uint_of_string) in H.
  rewrite !NilEmpty.usu in H. injection H as H.
  apply (f_equal Nat.of_uint) in H.
  rewrite !DecimalNat.Unsigned.of_to in H. exact H.
Qed.

Lemma msg_undeclared_inj i name i' name' :
  msg_undeclared i name = msg_undeclared i' name' -> i = i' /\ name = name'.
Proof.
  intros H. pose proof (f_equal after_line_number H) as Hr.
  unfold msg_undeclared in Hr. rewrite !after_line_number_eq in Hr.
  change (txt ": Undeclared identifier '" ++ name
            ++ txt "' - variable used before declaration"
          = txt ": Undeclared identifier '" ++ name'
            ++ txt "' - variable used before declaration") in Hr.
  apply app_inv_head, app_inv_tail in Hr. subst name'. split; [|reflexivity].
  unfold msg_undeclared in H. rewrite !(app_assoc (txt "Line ")) in H.
  apply app_inv_tail, app_inv_head in H. apply str_of_nat_inj, H.
Qed.

Lemma enumerate_from_in {A} (l : list A) k i x :
  In (i, x) (enumerate_from k l) -> k <= i /\ nth_error l (i - k) = Some x.
Proof.
  revert k. induction l as [|y t IH]; intros k H; simpl in H; [destruct H|].
  destruct H as [[= <- <-]|H].
  - rewrite Nat.sub_diag. auto.
  - apply IH in H as [Hk Hn]. split; [lia|].
    replace (i - k) with (S (i - S k)) by lia. exact Hn.
Qed.

Lemma undeclared_line_errors lines i line e :
  In e (errors (exec (undeclared_line lines (i, line)) init)) ->
  exists name, e = msg_undeclared i name /\ In name watch_list
    /\ is_empty (strip line) = false /\ is_comment (strip line) = false
    /\ is_signature (strip line) = false
    /\ found (re_search (re_word name) (strip line)) = true
    /\ declared_before lines i name = false.
Proof.
  unfold undeclared_line, exec. cbn [fst snd].
  destruct (is_empty (strip line)) eqn:He; [intros []|].
  destruct (is_comment (strip line)) eqn:Hc; [intros []|].
  rewrite (not_comment_not_directive _ Hc). cbn [negb andb when].
  destruct (is_signature (strip line)) eqn:Hs; [intros []|].
  intros H. apply for_each_errors_inv in H as [[]|(pv & Hw & H)].
  - cbv zeta in H. rewrite (pattern_of_entry pv Hw) in H.
    destruct (found (re_search (re_word (snd pv)) (strip line))) eqn:Hu; [|destruct H].
    destruct (declared_before lines i (snd pv)) eqn:Hb; [destruct H|].
    destruct H as [<-|[]]. exists (snd pv).
    split; [reflexivity|]. split; [apply in_map, Hw|]. auto 10.
  - intros x; appends.
Qed.

(** C8, as the program has it.  The check adds the "undeclared identifier"
    error for a line and a name exactly when the name is on the watch-list
    and occurs as a word on that line, the line is neither blank, a comment nor
    a function signature, and no line of the document from the first up to and
    including that line, comments among them, is one that [declares] the name:
    one that has the name, beginning at a word boundary, followed by optional
    white space and [:] or [=], or has [var], a word, the name and [=].  So a
    line that matches the signature pattern is skipped, and a name that the
    line itself, or a comment above it, writes before [=] or [:] is not
    reported, while a longer word that only ends with the name declares
    nothing. *)
Theorem undeclared_use_reported (lines : list str) (i : nat) (name : str) :
  In (msg_undeclared (S i) name) (errors (exec (check_undeclared lines) init))
  <->
  exists line,
    nth_error lines i = Some line
    /\ In name watch_list
    /\ is_empty (strip line) = false
    /\ is_comment (strip line) = false
    /\ is_signature (strip line) = false
    /\ found (re_search (re_word name) (strip line)) = true
    /\ (forall j l, j <= i -> nth_error lines j = Some l -> declares name l = false).
Proof.
  split.
  - unfold check_undeclared. intros H.
    apply for_each_errors_inv in H as [[]|([i' line] & Hin & H)];
      [|intros x; unfold undeclared_line; appends].
    apply undeclared_line_errors in H
      as (name' & E & Hw & He & Hc & Hs & Hu & Hb).
    apply msg_undeclared_inj in E as [<- <-].
    apply enumerate_from_in in Hin as [_ Hn].
    simpl in Hn. rewrite Nat.sub_0_r in Hn.
    exists line. repeat (split; [assumption|]).
    apply declared_before_false, Hb.
  - intros (line & Hn & Hw & He & Hc & Hs & Hu & Hd).
    unfold check_undeclared.
    apply (for_each_errors_in _ _ (S i, line)).
    + intros x. unfold undeclared_line; appends.
    + apply (enumerate_from_nth lines 1 i line Hn).
    + unfold exec. rewrite (undeclared_line_examined _ _ _ _ He Hc Hs).
      apply (for_each_errors_in _ _ (re_word name, name)).
      * apply appender_undeclared_name.
      * apply watch_list_entry, Hw.
      * unfold undeclared_name. cbn [fst snd]. rewrite Hu.
        rewrite (proj2 (declared_before_false lines i name) Hd). simpl. auto.
Qed.

Lemma undeclared_use_reported_witness :
  In (txt "Line 2: Undeclared identifier 'maxCycleLength' - variable used before declaration")
     (errors (exec (check_undeclared [txt "f(a) => a + maxCycleLength";
                                      txt "plot(maxCycleLength)"]) init))
  /\ In (txt "Line 2: Undeclared identifier 'minCycleLength' - variable used before declaration")
        (errors (exec (check_undeclared [txt "xminCycleLength = 1";
                                         txt "plot(minCycleLength)"]) init)).
Proof.
  split.
  - apply (undeclared_use_reported
             [txt "f(a) => a + maxCycleLength"; txt "plot(maxCycleLength)"] 1
             (txt "maxCycleLength")).
    exists (txt "plot(maxCycleLength)").
    split; [reflexivity|]. split; [right; left; reflexivity|].
    split; [reflexivity|]. split; [reflexivity|].
    split; [vm_compute; reflexivity|]. split; [vm_compute; reflexivity|].
    intros j l Hj Hl.
    destruct j as [|[|j]]; [| |lia]; injection Hl as <-; vm_compute; reflexivity.
  - apply (undeclared_use_reported
             [txt "xminCycleLength = 1"; txt "plot(minCycleLength)"] 1
             (txt "minCycleLength")).
    exists (txt "plot(minCycleLength)").
    split; [reflexivity|]. split; [left; reflexivity|].
    split; [reflexivity|]. split; [reflexivity|].
    split; [vm_compute; reflexivity|]. split; [vm_compute; reflexivity|].
    intros j l Hj Hl.
    destruct j as [|[|j]]; [| |lia]; injection Hl as <-; vm_compute; reflexivity.
Defined.

(** The claim C8 fails on a line that only compares a watched name: the name
    is used on the first line of the document, the declaration pass records
    nothing for it, and yet no error is added, because the text of the line
    itself has the name followed by [=]. *)
Lemma comparison_counts_as_declaration :
  let line := txt "if minCycleLength == 3" in
  let name := txt "minCycleLength" in
  In name watch_list
  /\ is_empty (strip line) = false
  /\ is_comment (strip line) = false
  /\ is_signature (strip line) = false
  /\ found (re_search (re_word name) (strip line)) = true
  /\ classify (strip line) = NoDecl
  /\ eval (declare_scan [line]) init = ∅
  /\ exec (check_undeclared [line]) init = init.
Proof.
  cbv zeta. split; [left; reflexivity|].
  repeat split; vm_compute; reflexivity.
Qed.

(** ** The matcher and the words of a pattern *)

Lemma or_else_none {A} (x y : option A) : or_else x y = None <-> x = None /\ y = None.
Proof.
  destruct x; simpl.
  - split; [discriminate|intros [H _]; discriminate H].
  - split; [auto|intros [_ H]; exact H].
Qed.

Lemma lit_from_spec l bef aft bef' aft' :
  lit_from l bef aft = Some (bef', aft') <-> aft = l ++ aft' /\ bef' = rev l ++ bef.
Proof.
  revert bef aft. induction l as [|a l IH]; intros bef aft; simpl.
  - split; [intros [= -> ->]; auto|intros [-> ->]; reflexivity].
  - destruct aft as [|b aft].
    + split; [discriminate|intros [H _]; discriminate H].
    + unfold chr_is. destruct (Ascii.eqb_spec a b) as [->|Hne].
      * rewrite IH. rewrite <- app_assoc. simpl.
        split; [intros [-> ->]; auto|intros [[= ->] ->]; auto].
      * split; [discriminate|intros [[= H _] _]; congruence].
Qed.

Lemma lit_from_none l bef aft :
  lit_from l bef aft = None <-> forall aft', aft <> l ++ aft'.
Proof.
  split.
  - intros H aft' E.
    assert (lit_from l bef aft = Some (rev l ++ bef, aft')) as H' by (apply lit_from_spec; auto).
    congruence.
  - intros H. destruct (lit_from l bef aft) as [[b' a']|] eqn:E; [|reflexivity].
    apply lit_from_spec in E as [E _]. destruct (H _ E).
Qed.

Section MatcherSpec.
Variable A : Type.

Lemma star_from_none (p : ascii -> bool) (k : cursor -> option A) g bef s :
  star_from p k g bef s = None <->
  (forall w aft, s = w ++ aft -> forallb p w = true -> k (Cursor (rev w ++ bef) aft g) = None).
Proof.
  revert bef. induction s as [|c s IH]; intros bef; simpl.
  - split.
    + intros H w aft E _. symmetry in E. apply app_eq_nil in E as [-> ->]. exact H.
    + intros H. apply (H [] []); reflexivity.
  - destruct (p c) eqn:Hc.
    + rewrite or_else_none, IH. split.
      * intros [H1 H2] w aft E Hw. destruct w as [|c' w]; simpl in E.
        -- subst aft. exact H2.
        -- injection E as <- ->. simpl in Hw. apply andb_true_iff in Hw as [_ Hw].
           simpl. rewrite <- app_assoc. apply H1; auto.
      * intros H. split.
        -- intros w aft E Hw. specialize (H (c :: w) aft). simpl in H.
           rewrite <- app_assoc in H. apply H; [rewrite E; reflexivity|].
           rewrite Hc; exact Hw.
        -- apply (H [] (c :: s)); reflexivity.
    + split.
      * intros H w aft E Hw. destruct w as [|c' w]; simpl in E.
        -- subst aft. exact H.
        -- injection E as <- ->. simpl in Hw. rewrite Hc in Hw. discriminate Hw.
      * intros H. apply (H [] (c :: s)); reflexivity.
Qed.

Lemma star_from_some (p : ascii -> bool) (k : cursor -> option A) g bef s x :
  star_from p k g bef s = Some x ->
  exists w aft, s = w ++ aft /\ forallb p w = true
                /\ k (Cursor (rev w ++ bef) aft g) = Some x.
Proof.
  revert bef. induction s as [|c s IHs]; intros bef; simpl.
  - intros H. exists [], []. auto.
  - destruct (p c) eqn:Hc.
    + destruct (star_from p k g (c :: bef) s) eqn:E; simpl.
      * intros [= ->]. apply IHs in E as (w & aft & -> & Hw & Hk).
        exists (c :: w), aft. simpl. rewrite Hc, <- app_assoc. auto.
      * intros H. exists [], (c :: s). auto.
    + intros H. exists [], (c :: s). auto.
Qed.

End MatcherSpec.

(** The matcher fails exactly when the continuation fails after every word
    of the pattern that starts at the cursor. *)
Lemma rmatch_none (r : re) :
  forall (A : Type) (k : cursor -> option A), insensitive k ->
  forall bef s g,
    rmatch r k (Cursor bef s g) = None <->
    (forall w aft, s = w ++ aft -> lang r bef w aft ->
                   k (Cursor (rev w ++ bef) aft g) = None).
Proof.
  induction r as [|p|l|r1 IH1 r2 IH2|r1 IH1 r2 IH2|p|p| | | |r IH];
    intros A k Hk bef s g; simpl.
  - split.
    + intros H w aft -> ->. exact H.
    + intros H. apply (H [] s); reflexivity.
  - destruct s as [|a s].
    + split; [|reflexivity]. intros _ w aft E (a & -> & _). discriminate E.
    + destruct (p a) eqn:Hp.
      * split.
        -- intros H w aft E (a' & -> & _). injection E as <- <-. exact H.
        -- intros H. apply (H [a] s); [reflexivity|]. exists a; auto.
      * split; [|reflexivity]. intros _ w aft E (a' & -> & Hp'). injection E as <- <-.
        congruence.
  - destruct (lit_from l bef s) as [[bef' aft']|] eqn:E.
    + apply lit_from_spec in E as [-> ->]. split.
      * intros H w aft E ->. apply app_inv_head in E. subst aft'. exact H.
      * intros H. apply (H l aft'); reflexivity.
    + split; [|reflexivity]. intros _ w aft Es ->. exfalso.
      apply (proj1 (lit_from_none l bef s) E aft Es).
  - assert (Hk2 : insensitive (rmatch r2 k)).
    { intros b a g1 g2 H. apply (IH2 A k Hk). intros w aft E Hl.
      apply (Hk _ _ g1). apply (proj1 (IH2 A k Hk b a g1) H w aft E Hl). }
    rewrite (IH1 A (rmatch r2 k) Hk2). split.
    + intros H w aft E (w1 & w2 & -> & H1 & H2).
      rewrite <- app_assoc in E.
      specialize (H w1 (w2 ++ aft) E H1).
      rewrite rev_app_distr, <- app_assoc.
      apply (proj1 (IH2 A k Hk _ _ _) H w2 aft eq_refl H2).
    + intros H w1 aft1 E H1. apply (IH2 A k Hk). intros w2 aft E2 H2.
      specialize (H (w1 ++ w2) aft). rewrite rev_app_distr, <- !app_assoc in H.
      apply H; [subst; reflexivity|]. exists w1, w2. subst aft1. auto.
  - rewrite or_else_none, (IH1 A k Hk), (IH2 A k Hk). split.
    + intros [H1 H2] w aft E [H|H]; auto.
    + intros H; split; intros w aft E Hl; apply H; auto.
  - apply star_from_none.
  - destruct s as [|a s].
    + split; [|reflexivity]. intros _ w aft E [Hne _].
      symmetry in E. apply app_eq_nil in E as [-> _]. congruence.
    + destruct (p a) eqn:Hp.
      * rewrite star_from_none. split.
        -- intros H w aft E [Hne Hw]. destruct w as [|a' w]; [congruence|].
           simpl in E. injection E as <- ->. simpl in Hw. apply andb_true_iff in Hw as [_ Hw].
           simpl. rewrite <- app_assoc. apply H; auto.
        -- intros H w aft E Hw. specialize (H (a :: w) aft). simpl in H.
           rewrite <- app_assoc in H. apply H; [rewrite E; reflexivity|].
           split; [discriminate|]. simpl. rewrite Hp. exact Hw.
      * split; [|reflexivity]. intros _ w aft E [Hne Hw].
        destruct w as [|a' w]; [congruence|]. simpl in E. injection E as <- ->.
        simpl in Hw. rewrite Hp in Hw. discriminate Hw.
  - destruct bef as [|b bef].
    + split.
      * intros H w aft E [-> _]. simpl in E. subst aft. exact H.
      * intros H. apply (H [] s); auto.
    + split; [|reflexivity]. intros _ w aft _ [_ H]. discriminate H.
  - change (at_end (Cursor bef s g)) with (at_end (Cursor bef s None)).
    destruct (at_end (Cursor bef s None)) eqn:He.
    + split.
      * intros H w aft E [-> _]. simpl in E. subst aft. exact H.
      * intros H. apply (H [] s); auto.
    + split; [|reflexivity]. intros _ w aft E [-> H]. simpl in E. subst aft. congruence.
  - change (at_word_boundary (Cursor bef s g)) with (at_word_boundary (Cursor bef s None)).
    destruct (at_word_boundary (Cursor bef s None)) eqn:He.
    + split.
      * intros H w aft E [-> _]. simpl in E. subst aft. exact H.
      * intros H. apply (H [] s); auto.
    + split; [|reflexivity]. intros _ w aft E [-> H]. simpl in E. subst aft. congruence.
  - rewrite IH.
    + split; intros H w aft E Hl; specialize (H w aft E Hl); simpl in *;
        eapply Hk; exact H.
    + intros b a g1 g2 H. exact H.
Qed.

Lemma match_here_none r bef s g :
  match_here r (Cursor bef s g) = None <->
  (forall w aft, s = w ++ aft -> ~ lang r bef w aft).
Proof.
  unfold match_here. rewrite rmatch_none.
  - split.
    + intros H w aft E Hl. specialize (H w aft E Hl). discriminate H.
    + intros H w aft E Hl. destruct (H w aft E Hl).
  - intros b a g1 g2 H. discriminate H.
Qed.

Lemma search_from_none r bef s :
  search_from r bef s = None <->
  (forall pre w aft, s = pre ++ w ++ aft -> ~ lang r (rev pre ++ bef) w aft).
Proof.
  revert bef. induction s as [|a s IH]; intros bef.
  - simpl. destruct (match_here r (Cursor bef [] None)) eqn:E.
    + split; [discriminate|]. intros H. exfalso.
      assert (match_here r (Cursor bef [] None) = None) as E'.
      { apply match_here_none. intros w aft Es. apply (H [] w aft Es). }
      congruence.
    + split; [|reflexivity]. intros _ pre w aft Es.
      destruct pre; [|discriminate Es]. simpl in *.
      apply (proj1 (match_here_none r bef [] None) E w aft Es).
  - simpl. destruct (match_here r (Cursor bef (a :: s) None)) eqn:E.
    + split; [discriminate|]. intros H. exfalso.
      assert (match_here r (Cursor bef (a :: s) None) = None) as E'.
      { apply match_here_none. intros w aft Es. apply (H [] w aft Es). }
      congruence.
    + rewrite IH. split.
      * intros H pre w aft Es. destruct pre as [|a' pre]; simpl in *.
        -- apply (proj1 (match_here_none r bef (a :: s) None) E w aft Es).
        -- injection Es as <- Es. rewrite <- app_assoc. simpl. apply H, Es.
      * intros H pre w aft Es. specialize (H (a :: pre) w aft). simpl in H.
        rewrite <- app_assoc in H. simpl in H. apply H. rewrite Es. reflexivity.
Qed.

(** A match that the matcher finds is a word of the pattern. *)
Lemma rmatch_some (r : re) :
  forall (A : Type) (k : cursor -> option A) bef s g x,
    rmatch r k (Cursor bef s g) = Some x ->
    exists w aft g', s = w ++ aft /\ lang r bef w aft
                     /\ k (Cursor (rev w ++ bef) aft g') = Some x.
Proof.
  induction r as [|p|l|r1 IH1 r2 IH2|r1 IH1 r2 IH2|p|p| | | |r IH];
    intros A k bef s g x; simpl.
  - intros H. exists [], s, g. auto.
  - destruct s as [|a s]; [discriminate|]. destruct (p a) eqn:Hp; [|discriminate].
    intros H. exists [a], s, g. repeat split; eauto.
  - destruct (lit_from l bef s) as [[bef' aft']|] eqn:E; [|discriminate].
    apply lit_from_spec in E as [-> ->]. intros H. exists l, aft', g. auto.
  - intros H. apply IH1 in H as (w1 & aft1 & g1 & -> & H1 & H).
    apply IH2 in H as (w2 & aft & g2 & -> & H2 & H).
    exists (w1 ++ w2), aft, g2. rewrite rev_app_distr, <- !app_assoc.
    split; [reflexivity|]. split; [|exact H]. exists w1, w2. auto.
  - intros H. destruct (rmatch r1 k (Cursor bef s g)) eqn:E1; simpl in H.
    + injection H as ->. apply IH1 in E1 as (w & aft & g' & -> & Hl & Hk).
      exists w, aft, g'. auto.
    + apply IH2 in H as (w & aft & g' & -> & Hl & Hk). exists w, aft, g'. auto.
  - intros H. apply star_from_some in H as (w & aft & -> & Hw & Hk).
    exists w, aft, g. auto.
  - destruct s as [|a s]; [discriminate|]. destruct (p a) eqn:Hp; [|discriminate].
    intros H. apply star_from_some in H as (w & aft & -> & Hw & Hk).
    exists (a :: w), aft, g. simpl. rewrite Hp, <- app_assoc.
    split; [reflexivity|]. split; [split; [discriminate|exact Hw]|exact Hk].
  - destruct bef; [|discriminate]. intros H. exists [], s, g. auto.
  - change (at_end (Cursor bef s g)) with (at_end (Cursor bef s None)).
    destruct (at_end (Cursor bef s None)) eqn:He; [|discriminate].
    intros H. exists [], s, g. auto.
  - change (at_word_boundary (Cursor bef s g)) with (at_word_boundary (Cursor bef s None)).
    destruct (at_word_boundary (Cursor bef s None)) eqn:He; [|discriminate].
    intros H. exists [], s, g. auto.
  - intros H. apply IH in H as (w & aft & g' & -> & Hl & Hk). simpl in Hk.
    eexists w, aft, _. eauto.
Qed.

Lemma search_from_some r bef s m :
  search_from r bef s = Some m ->
  exists pre w aft, s = pre ++ w ++ aft /\ lang r (rev pre ++ bef) w aft.
Proof.
  revert bef. induction s as [|a s IH]; intros bef; simpl.
  - destruct (match_here r (Cursor bef [] None)) eqn:E; [|discriminate].
    intros _. apply rmatch_some in E as (w & aft & _ & Es & Hl & _).
    exists [], w, aft. auto.
  - destruct (match_here r (Cursor bef (a :: s) None)) eqn:E.
    + intros _. apply rmatch_some in E as (w & aft & _ & Es & Hl & _).
      exists [], w, aft. auto.
    + intros H. apply IH in H as (pre & w & aft & -> & Hl).
      exists (a :: pre), w, aft. simpl. rewrite <- app_assoc. auto.
Qed.

(** [re.search] finds a match exactly when the pattern occurs. *)
Lemma re_search_found r s : found (re_search r s) = true <-> occurs r s.
Proof.
  unfold re_search, occurs.
  destruct (search_from r [] s) eqn:E; simpl.
  - split; [intros _|reflexivity].
    apply search_from_some in E as (pre & w & aft & Es & Hl).
    exists pre, w, aft. rewrite app_nil_r in Hl. auto.
  - split; [discriminate|]. intros (pre & w & aft & Es & Hl). exfalso.
    apply (proj1 (search_from_none r [] s) E pre w aft Es).
    rewrite app_nil_r. exact Hl.
Qed.

(** ** Indicator or strategy declaration *)

Lemma occurs_declaration content : occurs re_declaration content <-> has_declaration content.
Proof.
  unfold occurs, has_declaration, re_declaration, seqs, ch. cbn [lang]. split.
  - intros (pre & w & aft & -> & w1 & w2 & -> & Hkw & w3 & w4 & -> & Hw & a & -> & Ha).
    apply chr_is_eq in Ha. subst a.
    exists pre, w1, w3, aft. rewrite <- !app_assoc. simpl. auto.
  - intros (a & kw & w & b & -> & Hkw & Hw).
    exists a, (kw ++ w ++ ["("%char]), b. rewrite <- !app_assoc. simpl.
    split; [reflexivity|].
    exists kw, (w ++ ["("%char]). split; [reflexivity|]. split; [exact Hkw|].
    exists w, ["("%char]. split; [reflexivity|]. split; [exact Hw|].
    exists "("%char. auto.
Qed.

(** C9, as the program has it.  The check looks for [indicator] or
    [strategy] followed, after optional white space, by an opening parenthesis.
    A document with such an occurrence gets nothing from the check; a document
    without one gets exactly one error, the missing-declaration error, and no
    warning; and putting the text [indicator(] anywhere in a document makes
    the check add nothing. *)
Theorem declaration_check (content : str) :
  (has_declaration content -> exec (check_declaration content) init = init)
  /\ (~ has_declaration content ->
      exec (check_declaration content) init = Checker [msg_no_declaration] [])
  /\ (forall a b : str,
        exec (check_declaration (a ++ txt "indicator(" ++ b)) init = init).
Proof.
  assert (Hyes : forall c, has_declaration c -> exec (check_declaration c) init = init).
  { intros c H. unfold check_declaration.
    rewrite (proj2 (re_search_found re_declaration c)); [reflexivity|].
    apply occurs_declaration, H. }
  split; [apply Hyes|]. split.
  - intros H. unfold check_declaration.
    destruct (found (re_search re_declaration content)) eqn:E; [|reflexivity].
    exfalso. apply H, occurs_declaration, re_search_found, E.
  - intros a b. apply Hyes.
    exists a, (txt "indicator"), [], b. split; [reflexivity|]. auto.
Qed.

Lemma declaration_check_witness :
  exec (check_declaration (txt "//@version=6" ++ [nl] ++ txt "strategy  (1)")) init = init
  /\ exec (check_declaration (txt "plot(close)")) init = Checker [msg_no_declaration] [].
Proof.
  split.
  - apply (declaration_check (txt "//@version=6" ++ [nl] ++ txt "strategy  (1)")).
    exists (txt "//@version=6" ++ [nl]), (txt "strategy"), (txt "  "), (txt "1)").
    repeat split. right; reflexivity.
  - apply (declaration_check (txt "plot(close)")).
    intros H. apply occurs_declaration, re_search_found in H. vm_compute in H. discriminate H.
Defined.

(** The claim C9 fails on a declaration written with a space before the
    parenthesis: neither [indicator(] nor [strategy(] is a substring of the
    document, and the check adds no error. *)
Lemma spaced_declaration_accepted :
  let content := txt "indicator (1)" in
  contains (txt "indicator(") content = false
  /\ contains (txt "strategy(") content = false
  /\ errors (exec (check_declaration content) init) = [].
Proof. vm_compute. repeat split. Qed.

(** ** Version directive *)

Lemma startswith_spec p s : startswith p s = true <-> exists t, s = p ++ t.
Proof.
  revert s. induction p as [|a p IH]; intros s; simpl.
  - split; [intros _; exists s; reflexivity|reflexivity].
  - destruct s as [|b s].
    + split; [discriminate|intros (t & H); discriminate H].
    + rewrite andb_true_iff, IH. unfold chr_is. split.
      * intros (Hab & t & ->). apply Ascii.eqb_eq in Hab. subst b. exists t. reflexivity.
      * intros (t & [= -> ->]). split; [apply Ascii.eqb_refl|exists t; reflexivity].
Qed.

Lemma contains_spec p s : contains p s = true <-> exists a b, s = a ++ p ++ b.
Proof.
  induction s as [|c s IH].
  - simpl. rewrite orb_false_r, startswith_spec. split.
    + intros (t & H). exists [], t. exact H.
    + intros (a & b & H). destruct a; [exists b; exact H|discriminate H].
  - change (contains p (c :: s)) with (startswith p (c :: s) || contains p s).
    rewrite orb_true_iff, IH, startswith_spec. split.
    + intros [(t & H)|(a & b & ->)]; [exists [], t; exact H|exists (c :: a), b; reflexivity].
    + intros (a & b & H). destruct a as [|c' a]; simpl in H.
      * left. exists b. exact H.
      * right. injection H as _ ->. exists a, b. reflexivity.
Qed.

Lemma drop_while_split p s : exists a, s = a ++ drop_while p s.
Proof.
  induction s as [|c s (a & IH)]; simpl.
  - exists []. reflexivity.
  - destruct (p c); [|exists []; reflexivity].
    exists (c :: a). simpl. rewrite <- IH. reflexivity.
Qed.

Lemma drop_while_head p s c t : drop_while p s = c :: t -> p c = false.
Proof.
  induction s as [|a s IH]; simpl; [discriminate|].
  destruct (p a) eqn:E; [exact IH|]. intros [= <- _]. exact E.
Qed.

Lemma drop_while_split_all p s :
  exists a, s = a ++ drop_while p s /\ forallb p a = true.
Proof.
  induction s as [|c s (a & IH & Ha)]; simpl.
  - exists []. auto.
  - destruct (p c) eqn:E; [|exists []; auto].
    exists (c :: a). simpl. rewrite E, Ha, <- IH. auto.
Qed.

Lemma strip_split s : exists a b, s = a ++ strip s ++ b.
Proof.
  unfold strip, rstrip, lstrip.
  destruct (drop_while_split isspace s) as (a & Ha).
  destruct (drop_while_split isspace (rev (drop_while isspace s))) as (b & Hb).
  exists a, (rev b). rewrite <- rev_app_distr, <- Hb, rev_involutive. exact Ha.
Qed.

Lemma drop_while_stops p l c q :
  p c = false -> exists y, drop_while p (l ++ c :: q) = y ++ c :: q.
Proof.
  intros Hc. induction l as [|a l (y & IH)]; simpl.
  - rewrite Hc. exists []. reflexivity.
  - destruct (p a); [exists y; exact IH|].
    exists (a :: l). reflexivity.
Qed.

Lemma rstrip_keeps p c x :
  isspace c = false -> exists y, rstrip ((p ++ [c]) ++ x) = (p ++ [c]) ++ y.
Proof.
  intros Hc. unfold rstrip. rewrite !rev_app_distr. simpl.
  destruct (drop_while_stops isspace (rev x) c (rev p) Hc) as (y & ->).
  exists (rev y). rewrite rev_app_distr. simpl. rewrite rev_involutive, <- app_assoc.
  reflexivity.
Qed.

Lemma occurs_version content : occurs re_version content <-> has_directive content.
Proof.
  unfold occurs, has_directive, re_version. cbn [lang]. split.
  - intros (pre & w & aft & -> & w1 & w2 & -> & -> & Hne & Hw).
    destruct w2 as [|d w2]; [congruence|]. simpl in Hw. apply andb_true_iff in Hw as [Hd _].
    exists pre, d, (w2 ++ aft). rewrite <- !app_assoc. simpl. auto.
  - intros (a & d & b & -> & Hd).
    exists a, (txt "//@version=" ++ [d]), b. rewrite <- !app_assoc. simpl.
    split; [reflexivity|].
    exists (txt "//@version="), [d]. split; [reflexivity|]. split; [reflexivity|].
    split; [discriminate|]. simpl. rewrite Hd. reflexivity.
Qed.

Lemma find_version_none content : ~ has_directive content -> find_version content = None.
Proof.
  intros H. unfold find_version.
  destruct (re_search re_version content) eqn:E; [|reflexivity].
  exfalso. apply H, occurs_version, re_search_found. rewrite E. reflexivity.
Qed.

Lemma star_from_greedy {A} (p : ascii -> bool) (k : cursor -> option A) g ds bef rest :
  (forall c, k c <> None) -> forallb p ds = true ->
  match rest with [] => true | c :: _ => negb (p c) end = true ->
  star_from p k g bef (ds ++ rest) = k (Cursor (rev ds ++ bef) rest g).
Proof.
  intros Hk. revert bef. induction ds as [|d ds IH]; intros bef Hds Hrest; simpl.
  - destruct rest as [|c rest]; [reflexivity|].
    simpl. apply negb_true_iff in Hrest. rewrite Hrest. reflexivity.
  - simpl in Hds. apply andb_true_iff in Hds as [Hd Hds]. rewrite Hd.
    rewrite (IH (d :: bef) Hds Hrest), <- app_assoc. simpl.
    destruct (k (Cursor (rev ds ++ d :: bef) rest g)) eqn:E; [reflexivity|].
    destruct (Hk _ E).
Qed.

Lemma rmatch_plus_greedy {A} (p : ascii -> bool) (k : cursor -> option A) g ds bef rest :
  (forall c, k c <> None) -> ds <> [] -> forallb p ds = true ->
  match rest with [] => true | c :: _ => negb (p c) end = true ->
  rmatch (Plus p) k (Cursor bef (ds ++ rest) g) = k (Cursor (rev ds ++ bef) rest g).
Proof.
  intros Hk Hne Hds Hrest. destruct ds as [|d ds]; [congruence|].
  simpl in Hds. apply andb_true_iff in Hds as [Hd Hds].
  simpl. rewrite Hd, (star_from_greedy p k g ds (d :: bef) rest Hk Hds Hrest), <- app_assoc.
  reflexivity.
Qed.

Lemma rmatch_lit {A} l (k : cursor -> option A) bef rest g :
  rmatch (Lit l) k (Cursor bef (l ++ rest) g) = k (Cursor (rev l ++ bef) rest g).
Proof.
  simpl. assert (H : lit_from l bef (l ++ rest) = Some (rev l ++ bef, rest))
    by (apply lit_from_spec; auto).
  rewrite H. reflexivity.
Qed.

Lemma rmatch_seq {A} r1 r2 (k : cursor -> option A) c :
  rmatch (Seq r1 r2) k c = rmatch r1 (rmatch r2 k) c.
Proof. reflexivity. Qed.

Lemma rmatch_grp {A} r (k : cursor -> option A) c :
  rmatch (Grp r) k c =
  rmatch r (fun c' => k (Cursor (before c') (after c')
                           (Some (firstn (length (after c) - length (after c')) (after c))))) c.
Proof. reflexivity. Qed.

Lemma search_from_skip r a bef x :
  (forall a1 a2, a = a1 ++ a2 -> a2 <> [] ->
     match_here r (Cursor (rev a1 ++ bef) (a2 ++ x) None) = None) ->
  search_from r bef (a ++ x) = search_from r (rev a ++ bef) x.
Proof.
  revert bef. induction a as [|c a IH]; intros bef H; [reflexivity|].
  change (search_from r bef ((c :: a) ++ x))
    with (match match_here r (Cursor bef (c :: a ++ x) None) with
          | Some m => Some m
          | None => search_from r (c :: bef) (a ++ x)
          end).
  assert (H0 : match_here r (Cursor bef (c :: a ++ x) None) = None)
    by (apply (H [] (c :: a) eq_refl); discriminate).
  rewrite H0, IH.
  - simpl. rewrite <- app_assoc. reflexivity.
  - intros a1 a2 E Hne. specialize (H (c :: a1) a2). simpl in H.
    rewrite <- app_assoc in H. apply H; [rewrite E; reflexivity|exact Hne].
Qed.

Lemma directive_here bef s m :
  match_here re_version (Cursor bef s None) = Some m ->
  exists d b, s = txt "//@version=" ++ d :: b /\ isdigit d = true.
Proof.
  unfold match_here. intros H.
  apply rmatch_some in H as (w & aft & _ & -> & Hl & _).
  unfold re_version in Hl. cbn [lang] in Hl.
  destruct Hl as (w1 & w2 & -> & -> & Hne & Hw).
  destruct w2 as [|d w2]; [congruence|]. simpl in Hw. apply andb_true_iff in Hw as [Hd _].
  exists d, (w2 ++ aft). rewrite <- !app_assoc. simpl. auto.
Qed.

(** A directive that starts before another one ends before it. *)
Lemma directive_not_astride a2 y d b :
  a2 <> [] -> a2 ++ txt "//@version=" ++ y = txt "//@version=" ++ d :: b ->
  isdigit d = true ->
  exists a3, a2 = txt "//@version=" ++ d :: a3.
Proof.
  intros Hne E Hd.
  destruct a2 as [|c1 a2]; [congruence|].
  do 11 (destruct a2 as [|? a2];
         [exfalso; cbn in E; try discriminate E; simplify_eq; discriminate Hd|]).
  cbn in E. simplify_eq. eexists. reflexivity.
Qed.

Lemma find_version_first a ds rest :
  ~ has_directive a ->
  ds <> [] -> forallb isdigit ds = true -> ends_number rest = true ->
  find_version (a ++ txt "//@version=" ++ ds ++ rest) = Some (int_of_digits ds).
Proof.
  intros Ha Hne Hds Hrest.
  assert (Hm : exists c0 bef,
             match_here re_version (Cursor (rev a ++ []) (txt "//@version=" ++ ds ++ rest) None)
             = Some (Matched c0 (Cursor bef rest (Some ds)))).
  { unfold match_here, re_version.
    rewrite rmatch_seq, rmatch_lit, rmatch_grp.
    rewrite rmatch_plus_greedy; [|discriminate|exact Hne|exact Hds|exact Hrest].
    cbn [before after].
    replace (length (ds ++ rest) - length rest) with (length ds)
      by (rewrite length_app; lia).
    rewrite firstn_app, Nat.sub_diag, firstn_all, firstn_O, !app_nil_r.
    eexists _, _. reflexivity. }
  destruct Hm as (c0 & bef & Hm).
  unfold find_version, re_search.
  rewrite search_from_skip.
  - change (txt "//@version=" ++ ds ++ rest)
      with ("/"%char :: (txt "/@version=" ++ ds ++ rest)) in *.
    cbn [search_from]. rewrite Hm. reflexivity.
  - intros a1 a2 -> Hne2.
    destruct (match_here re_version
                (Cursor (rev a1 ++ []) (a2 ++ txt "//@version=" ++ ds ++ rest) None))
      as [m|] eqn:E; [|reflexivity]. exfalso.
    apply directive_here in E as (d & b & E & Hd).
    destruct (directive_not_astride a2 (ds ++ rest) d b Hne2 E Hd) as (a3 & ->).
    apply Ha. exists a1, d, a3. auto.
Qed.

Lemma strip_leading_space a s : forallb isspace a = true -> strip (a ++ s) = strip s.
Proof. intros H. unfold strip, lstrip. rewrite (drop_while_app isspace a s H). reflexivity. Qed.

(** Every document with a directive has a first one. *)
Lemma first_directive_exists content :
  has_directive content -> exists a ds rest, first_directive content a ds rest.
Proof.
  intros (a & d & b & E & Hd).
  assert (Hf : exists a' d' b', content = a' ++ txt "//@version=" ++ d' :: b'
                                /\ isdigit d' = true /\ ~ has_directive a').
  { remember (length a) as n eqn:Hn. revert a d b E Hd Hn.
    induction n as [n IH] using lt_wf_ind. intros a d b E Hd Hn.
    destruct (found (re_search re_version a)) eqn:Ef.
    - apply re_search_found, occurs_version in Ef as (a1 & d1 & b1 & Ea & Hd1).
      apply (IH (length a1)) with (a := a1) (d := d1) (b := b1 ++ txt "//@version=" ++ d :: b).
      + rewrite Hn, Ea, length_app. simpl. lia.
      + rewrite E, Ea, <- !app_assoc. reflexivity.
      + exact Hd1.
      + reflexivity.
    - exists a, d, b. split; [exact E|]. split; [exact Hd|].
      intros H. apply occurs_version, re_search_found in H. congruence. }
  destruct Hf as (a' & d' & b' & E' & Hd' & Ha').
  destruct (drop_while_split_all isdigit b') as (ds & Hb & Hds).
  exists a', (d' :: ds), (drop_while isdigit b').
  split; [|split; [exact Ha'|split; [discriminate|split]]].
  - rewrite E'. rewrite Hb at 1. reflexivity.
  - simpl. rewrite Hd', Hds. reflexivity.
  - unfold ends_number. destruct (drop_while isdigit b') as [|c t] eqn:Ed; [reflexivity|].
    apply drop_while_head in Ed. rewrite Ed. reflexivity.
Qed.

Lemma no_text_no_directive content :
  contains (txt "//@version") content = false -> ~ has_directive content.
Proof.
  intros H (a & d & b & -> & _).
  assert (contains (txt "//@version") (a ++ txt "//@version=" ++ d :: b) = true) as H'.
  { apply contains_spec. exists a, ("="%char :: d :: b). reflexivity. }
  congruence.
Qed.

Lemma no_text_no_start content :
  contains (txt "//@version") content = false ->
  startswith (txt "//@version") (strip content) = false.
Proof.
  intros H. destruct (startswith (txt "//@version") (strip content)) eqn:E; [|reflexivity].
  apply startswith_spec in E as (t & E).
  destruct (strip_split content) as (a & b & Hs).
  assert (contains (txt "//@version") content = true) as H'.
  { apply contains_spec. exists a, (t ++ b). rewrite Hs at 1. rewrite E, <- app_assoc.
    reflexivity. }
  congruence.
Qed.

Lemma directive_first_starts x :
  startswith (txt "//@version") (strip (txt "//@version" ++ x)) = true.
Proof.
  unfold strip.
  assert (Hl : lstrip (txt "//@version" ++ x) = txt "//@version" ++ x) by reflexivity.
  rewrite Hl.
  destruct (rstrip_keeps (txt "//@versio") "n" x eq_refl) as (y & Hy).
  change (txt "//@versio" ++ ["n"%char]) with (txt "//@version") in Hy.
  rewrite Hy. apply startswith_spec. exists y. reflexivity.
Qed.

(** C2, as the program has it.  The two tests on the version are separate.
    A document with no directive, that is no [//@version=] followed by a
    digit, gets no error and the warning that the version could not be
    determined, and before it the warning that the file should start with the
    directive unless the trimmed document begins with the text [//@version]:
    two warnings whenever that text is nowhere in the document.  A document
    with a directive has a first one, wherever it stands, and the numeral of
    the first one, read as a decimal number [v], decides: the "outdated"
    warning when [v < 5], the "newer than expected" warning when [v > 6], and
    nothing for versions 5 and 6.  The only other warning is again the one
    that the file should start with the directive, under the same condition,
    which never holds when only white space stands before the directive. *)
Theorem version_check (content : str) :
  (~ has_directive content ->
     exec (check_version content) init
     = Checker []
         ((if startswith (txt "//@version") (strip content) then [] else [msg_should_start])
          ++ [msg_no_version]))
  /\ (contains (txt "//@version") content = false ->
      exec (check_version content) init = Checker [] [msg_should_start; msg_no_version])
  /\ (has_directive content -> exists a ds rest, first_directive content a ds rest)
  /\ (forall a ds rest,
        first_directive content a ds rest ->
        exec (check_version content) init
        = Checker []
            ((if startswith (txt "//@version") (strip content) then [] else [msg_should_start])
             ++ (if (int_of_digits ds <? 5)%N then [msg_outdated (int_of_digits ds)]
                 else if (6 <? int_of_digits ds)%N then [msg_newer (int_of_digits ds)]
                 else []))
        /\ (forallb isspace a = true ->
            startswith (txt "//@version") (strip content) = true)).
Proof.
  assert (H1 : ~ has_directive content ->
     exec (check_version content) init
     = Checker []
         ((if startswith (txt "//@version") (strip content) then [] else [msg_should_start])
          ++ [msg_no_version])).
  { intros H. unfold check_version. rewrite exec_bind, (find_version_none content H).
    destruct (startswith (txt "//@version") (strip content)); reflexivity. }
  split; [exact H1|]. split; [|split].
  - intros H. rewrite (H1 (no_text_no_directive content H)).
    rewrite (no_text_no_start content H). reflexivity.
  - apply first_directive_exists.
  - intros a ds rest (E & Ha & Hne & Hds & Hrest). split.
    + unfold check_version. rewrite exec_bind.
      pose proof (find_version_first a ds rest Ha Hne Hds Hrest) as Hf.
      rewrite <- E in Hf. rewrite Hf.
      destruct (startswith (txt "//@version") (strip content));
        destruct (int_of_digits ds <? 5)%N; try reflexivity;
        destruct (6 <? int_of_digits ds)%N; reflexivity.
    + intros Hsp. rewrite E, (strip_leading_space a _ Hsp).
      apply (directive_first_starts ("="%char :: ds ++ rest)).
Qed.

Lemma version_check_witness :
  exec (check_version (txt "//@version=4" ++ [nl] ++ txt "indicator(1)")) init
  = Checker [] [txt "Pine Script version 4 is outdated. Consider upgrading to v6"]
  /\ exec (check_version (txt " //@version=04")) init
     = Checker [] [txt "Pine Script version 4 is outdated. Consider upgrading to v6"]
  /\ exec (check_version (txt "// header" ++ [nl] ++ txt "//@version=4")) init
     = Checker [] [msg_should_start;
                   txt "Pine Script version 4 is outdated. Consider upgrading to v6"]
  /\ exec (check_version (txt "//@version=7")) init
     = Checker [] [txt "Pine Script version 7 is newer than expected. Ensure compatibility"]
  /\ exec (check_version (txt "//@version=6")) init = init
  /\ exec (check_version (txt "plot(close)")) init
     = Checker [] [msg_should_start; msg_no_version]
  /\ exec (check_version (txt "//@version 6")) init = Checker [] [msg_no_version].
Proof.
  assert (Hno : forall a, found (re_search re_version a) = false -> ~ has_directive a).
  { intros a E H. apply occurs_version, re_search_found in H. congruence. }
  split; [|split; [|split; [|split; [|split; [|split]]]]].
  - refine (proj1 (proj2 (proj2 (proj2
              (version_check (txt "//@version=4" ++ [nl] ++ txt "indicator(1)"))))
              [] (txt "4") ([nl] ++ txt "indicator(1)") _)).
    split; [reflexivity|]. split; [apply Hno; reflexivity|].
    split; [discriminate|]. split; reflexivity.
  - refine (proj1 (proj2 (proj2 (proj2 (version_check (txt " //@version=04"))))
              (txt " ") (txt "04") [] _)).
    split; [reflexivity|]. split; [apply Hno; reflexivity|].
    split; [discriminate|]. split; reflexivity.
  - refine (proj1 (proj2 (proj2 (proj2
              (version_check (txt "// header" ++ [nl] ++ txt "//@version=4"))))
              (txt "// header" ++ [nl]) (txt "4") [] _)).
    split; [reflexivity|]. split; [apply Hno; reflexivity|].
    split; [discriminate|]. split; reflexivity.
  - refine (proj1 (proj2 (proj2 (proj2 (version_check (txt "//@version=7"))))
              [] (txt "7") [] _)).
    split; [reflexivity|]. split; [apply Hno; reflexivity|].
    split; [discriminate|]. split; reflexivity.
  - refine (proj1 (proj2 (proj2 (proj2 (version_check (txt "//@version=6"))))
              [] (txt "6") [] _)).
    split; [reflexivity|]. split; [apply Hno; reflexivity|].
    split; [discriminate|]. split; reflexivity.
  - apply (proj1 (proj2 (version_check (txt "plot(close)")))). reflexivity.
  - apply (proj1 (version_check (txt "//@version 6"))).
    apply Hno. reflexivity.
Defined.

(** The claim C2 fails on a document with no directive at all: the check
    adds two warnings, not one.  And a directive alone does not decide what
    the check adds: a directive for version 4 that comes after one for
    version 6 gets no "outdated" warning, and a directive for version 6 that
    does not open the document leaves the warning that the file should start
    with the directive. *)
Lemma no_directive_two_warnings :
  let content := txt "plot(close)" in
  contains (txt "//@version") content = false
  /\ found (re_search re_version content) = false
  /\ errors (exec (check_version content) init) = []
  /\ warnings (exec (check_version content) init) = [msg_should_start; msg_no_version]
  /\ length (warnings (exec (check_version content) init)) = 2
  /\ exec (check_version (txt "//@version=6" ++ [nl] ++ txt "//@version=4")) init = init
  /\ exec (check_version (txt "// header" ++ [nl] ++ txt "//@version=6")) init
     = Checker [] [msg_should_start].
Proof. vm_compute. repeat split. Qed.

(** * Further properties of the checker *)

(** ** Which checks can change the verdict *)

Lemma eval_bind {A B} (m : M A) (f : A -> M B) st :
  eval (bind m f) st = eval (f (eval m st)) (exec m st).
Proof. unfold eval at 1; rewrite bind_run; reflexivity. Qed.

Lemma warns_only_ret {A} (x : A) : warns_only (ret x).
Proof. intros st; reflexivity. Qed.

Lemma warns_only_warn x : warns_only (warn x).
Proof. intros st; reflexivity. Qed.

Lemma warns_only_bind {A B} (m : M A) (f : A -> M B) :
  warns_only m -> (forall x, warns_only (f x)) -> warns_only (bind m f).
Proof. intros Hm Hf st. rewrite exec_bind, Hf, Hm. reflexivity. Qed.

Lemma warns_only_when b m : warns_only m -> warns_only (when b m).
Proof. intros H. destruct b; simpl; [exact H|apply warns_only_ret]. Qed.

Lemma warns_only_for_each {A} (l : list A) body :
  (forall x, warns_only (body x)) -> warns_only (for_each l body).
Proof.
  intros H; induction l as [|x t IH]; simpl.
  - apply warns_only_ret.
  - apply warns_only_bind; auto.
Qed.

Ltac warnings_only :=
  repeat lazymatch goal with
    | |- forall _, _ => intro
    | |- warns_only (bind _ _) => apply warns_only_bind
    | |- warns_only (ret _) => apply warns_only_ret
    | |- warns_only skip => apply warns_only_ret
    | |- warns_only (warn _) => apply warns_only_warn
    | |- warns_only (when _ _) => apply warns_only_when
    | |- warns_only (for_each _ _) => apply warns_only_for_each
    | |- warns_only (match ?x with _ => _ end) => destruct x
    | |- warns_only (let _ := _ in _) => cbv zeta
    end.

Lemma warns_only_check_common_issues content lines :
  warns_only (check_common_issues content lines).
Proof. unfold check_common_issues; warnings_only. Qed.

Lemma check_file_fresh path content :
  exec (check_file path (ReadOk content)) init
  = extend (exec (check_basic_syntax content (split_lines content)) init)
           (exec (check_common_issues content (split_lines content)) init).
Proof.
  unfold check_file. cbv zeta. rewrite !exec_bind.
  rewrite (appender_exec _ _ (appender_check_common_issues content (split_lines content))).
  reflexivity.
Qed.

(** X1.  The second pass, [check_common_issues], never adds an error: on
    any checker it leaves the list of errors as it found it.  So for a file
    that was read, the errors of a fresh run, and with them the verdict, are
    those of [check_basic_syntax] alone. *)
Theorem common_issues_never_fail (path content : str) (lines : list str) (st : checker) :
  errors (exec (check_common_issues content lines) st) = errors st
  /\ errors (exec (check_file path (ReadOk content)) init)
     = errors (exec (check_basic_syntax content (split_lines content)) init)
  /\ eval (check_file path (ReadOk content)) init
     = is_empty (errors (exec (check_basic_syntax content (split_lines content)) init)).
Proof.
  pose proof (warns_only_check_common_issues content (split_lines content)) as Hw.
  split; [apply warns_only_check_common_issues|]. split.
  - unfold check_file. cbv zeta. rewrite !exec_bind. simpl. apply Hw.
  - unfold check_file. cbv zeta. rewrite !eval_bind. unfold eval. cbn [fst].
    rewrite Hw. reflexivity.
Qed.

(** ** No run is silent *)

Lemma in_warnings_bind_l {A B} (m : M A) (f : A -> M B) w st :
  appender m -> (forall x, appender (f x)) ->
  In w (warnings (exec m init)) -> In w (warnings (exec (bind m f) st)).
Proof.
  intros Hm Hf H. rewrite (appender_exec _ st (appender_bind m f Hm Hf)).
  rewrite exec_bind, (appender_exec _ (exec m init) (Hf _)). simpl.
  apply in_or_app; right. apply in_or_app; left. exact H.
Qed.

Lemma in_warnings_bind_r {A B} (m : M A) (f : A -> M B) w st :
  appender m -> (forall x, appender (f x)) ->
  In w (warnings (exec (f (eval m init)) init)) -> In w (warnings (exec (bind m f) st)).
Proof.
  intros Hm Hf H. rewrite (appender_exec _ st (appender_bind m f Hm Hf)).
  rewrite exec_bind, (appender_exec _ (exec m init) (Hf _)). simpl.
  apply in_or_app; right. apply in_or_app; right. exact H.
Qed.

Lemma for_each_warnings_in {A} (l : list A) (body : A -> M unit) (y : A) (w : str) st :
  (forall x, appender (body x)) -> In y l ->
  In w (warnings (exec (body y) init)) ->
  In w (warnings (exec (for_each l body) st)).
Proof.
  intros Happ. revert st. induction l as [|x t IH]; intros st Hy He; [destruct Hy|].
  simpl. destruct Hy as [->|Hy].
  - apply in_warnings_bind_l; [apply Happ|intros _; apply appender_for_each, Happ|exact He].
  - apply in_warnings_bind_r; [apply Happ|intros _; apply appender_for_each, Happ|].
    apply IH; assumption.
Qed.

(** Into the second part of a sequence, and into its first part. *)
Ltac warned_later :=
  apply in_warnings_bind_r; [solve [appends]|solve [appends]|].
Ltac warned_now :=
  apply in_warnings_bind_l; [solve [appends]|solve [appends]|].

Lemma division_warning content lines st :
  contains (txt "/") content = true ->
  In (txt "Division operations found - check for potential division by zero")
     (warnings (exec (check_common_issues content lines) st)).
Proof.
  intros H. unfold check_common_issues. cbv zeta.
  do 3 warned_later. warned_now. rewrite H. left. reflexivity.
Qed.

Lemma should_start_warning content lines st :
  startswith (txt "//@version") (strip content) = false ->
  In msg_should_start (warnings (exec (check_basic_syntax content lines) st)).
Proof.
  intros H. unfold check_basic_syntax.
  warned_later. warned_now. unfold check_version. warned_now.
  rewrite H. left. reflexivity.
Qed.

Lemma directive_has_slash content :
  startswith (txt "//@version") (strip content) = true ->
  contains (txt "/") content = true.
Proof.
  intros H. apply startswith_spec in H as (t & H).
  destruct (strip_split content) as (a & b & Hs).
  apply contains_spec. exists a, (txt "/@version" ++ t ++ b).
  rewrite Hs at 1. rewrite H. rewrite <- !app_assoc. reflexivity.
Qed.

(** X2.  No call of [check_file] that returns leaves both lists empty.
    When opening or reading the file raises one of the two exceptions that
    [check_file] catches, the matching error is added.  A file that was read
    always gets a warning: if its trimmed text does not begin with
    [//@version] it is told so, and if it does, the two slashes of the
    directive are enough for the warning about division operations. *)
Theorem check_file_never_silent (path : str) (r : read_result) (st : checker) :
  match r with
  | ReadOk content =>
      In (if startswith (txt "//@version") (strip content)
          then txt "Division operations found - check for potential division by zero"
          else msg_should_start)
         (warnings (exec (check_file path r) st))
  | FileNotFound =>
      In (txt "File not found: " ++ path) (errors (exec (check_file path r) st))
  | UnicodeDecodeError =>
      In (txt "Encoding error in " ++ path) (errors (exec (check_file path r) st))
  end.
Proof.
  unfold exec. rewrite check_file_run. cbn [snd].
  destruct r as [content| |].
  - rewrite check_file_fresh. unfold extend. cbn [warnings].
    apply in_or_app; right.
    destruct (startswith (txt "//@version") (strip content)) eqn:E.
    + apply in_or_app; right. apply division_warning, directive_has_slash, E.
    + apply in_or_app; left. apply should_start_warning, E.
  - unfold extend. cbn [errors]. apply in_or_app; right. left. reflexivity.
  - unfold extend. cbn [errors]. apply in_or_app; right. left. reflexivity.
Qed.

(** ** The verdict and the exit status *)

Lemma is_empty_nil {A} (l : list A) : is_empty l = true <-> l = [].
Proof. destruct l; simpl; split; congruence. Qed.

Lemma check_file_fresh_verdict path r :
  eval (check_file path r) init = is_empty (errors (exec (check_file path r) init)).
Proof.
  destruct r as [content| |]; [|reflexivity..].
  unfold check_file. cbv zeta. rewrite !eval_bind, !exec_bind. reflexivity.
Qed.

(** X3.  The value [check_file] returns is the [passed] field that
    [get_summary] gives right after the call, on a fresh checker and on a used
    one, for a file that was read and for one that was not. *)
Theorem check_file_returns_summary_verdict (path : str) (r : read_result) (st : checker) :
  eval (check_file path r) st = s_passed (get_summary (exec (check_file path r) st)).
Proof.
  unfold eval at 1, exec. rewrite check_file_run. cbn [fst snd].
  unfold get_summary, extend. cbn [s_passed errors].
  rewrite is_empty_app, check_file_fresh_verdict. reflexivity.
Qed.

(** X4.  [main] exits with status 0 exactly when it is given a path, the
    path exists, the file is read, and [check_basic_syntax] finds no error in
    it; in every other case the status is 1.  Warnings, and the whole of
    [check_common_issues], have no part in the status. *)
Theorem main_exit_status (env : environment) :
  (main env = 0 <->
   exists prog path rest content,
     argv env = prog :: path :: rest
     /\ path_exists env path = true
     /\ read_file env path = ReadOk content
     /\ errors (exec (check_basic_syntax content (split_lines content)) init) = [])
  /\ (main env = 0 \/ main env = 1).
Proof.
  unfold main. destruct env as [av ex rd]. cbn [argv path_exists read_file].
  destruct av as [|prog [|path rest]].
  - simpl. split; [|auto]. split; [discriminate|].
    intros (? & ? & ? & ? & H & _). discriminate H.
  - simpl. split; [|auto]. split; [discriminate|].
    intros (? & ? & ? & ? & H & _). discriminate H.
  - cbn [length Nat.ltb Nat.leb nth]. destruct (ex path) eqn:Hex; cbn [negb].
    + cbv zeta. unfold get_summary. cbn [s_passed].
      destruct (rd path) as [content| |] eqn:Hrd.
      * pose proof (warns_only_check_common_issues content (split_lines content)) as Hw.
        assert (He : errors (exec (check_file path (ReadOk content)) init)
                     = errors (exec (check_basic_syntax content (split_lines content)) init)).
        { unfold check_file. cbv zeta. rewrite !exec_bind. apply Hw. }
        rewrite He.
        destruct (errors (exec (check_basic_syntax content (split_lines content)) init))
          as [|e es] eqn:Eb; cbn [is_empty].
        -- split; [|auto]. split; [|reflexivity]. intros _.
           exists prog, path, rest, content. auto.
        -- split; [|auto]. split; [discriminate|].
           intros (? & ? & ? & c & [= <- <- <-] & _ & Hc & Hn). exfalso.
           rewrite Hrd in Hc. injection Hc as <-. rewrite Eb in Hn. discriminate Hn.
      * split; [|auto]. split; [discriminate|].
        intros (? & ? & ? & c & [= <- <- <-] & _ & Hc & _). exfalso.
        rewrite Hrd in Hc. discriminate Hc.
      * split; [|auto]. split; [discriminate|].
        intros (? & ? & ? & c & [= <- <- <-] & _ & Hc & _). exfalso.
        rewrite Hrd in Hc. discriminate Hc.
    + split; [|auto]. split; [discriminate|].
      intros (? & ? & ? & c & [= <- <- <-] & Hx & _). congruence.
Qed.

(** ** The semicolon check *)

(** A trimmed text does not end with white space. *)
Lemma strip_no_trailing_space line y z :
  strip line = y ++ z -> forallb isspace z = true -> z = [].
Proof.
  intros Hs Hz. destruct z as [|a z'] using rev_ind; [reflexivity|]. exfalso.
  clear IHz'. rewrite forallb_app in Hz. apply andb_true_iff in Hz as [_ Hz].
  simpl in Hz. rewrite andb_true_r in Hz.
  unfold strip, rstrip in Hs. apply (f_equal (@rev ascii)) in Hs.
  rewrite rev_involutive, app_assoc, rev_app_distr in Hs. simpl in Hs.
  apply drop_while_head in Hs. congruence.
Qed.

Lemma lang_seqs_app l1 l2 bef w aft :
  l2 <> [] -> lang (seqs (l1 ++ l2)) bef w aft ->
  exists w1 w2, w = w1 ++ w2 /\ lang (seqs l2) (rev w1 ++ bef) w2 aft.
Proof.
  intros Hne. revert bef w. induction l1 as [|r l1 IH]; intros bef w H.
  - exists [], w. auto.
  - assert (Hs : seqs ((r :: l1) ++ l2) = Seq r (seqs (l1 ++ l2))).
    { simpl. destruct (l1 ++ l2) eqn:E; [|reflexivity].
      apply app_eq_nil in E as [_ E]. congruence. }
    rewrite Hs in H. cbn [lang] in H. destruct H as (wa & wb & -> & _ & H).
    apply IH in H as (w1 & w2 & -> & H).
    exists (wa ++ w1), w2. rewrite rev_app_distr, <- !app_assoc. auto.
Qed.

Lemma call_tail_ends bef w aft :
  lang (seqs re_call_tail) bef w aft ->
  exists x ws, w = x ++ ")"%char :: ws /\ forallb isspace ws = true
               /\ at_end (Cursor [] aft None) = true.
Proof.
  unfold re_call_tail, seqs, ch. cbn [lang].
  intros (w1 & r1 & -> & _ & w2 & r2 & -> & _ & w3 & r3 & -> & _ & w4 & r4 & -> & _
          & w5 & r5 & -> & _ & w6 & r6 & -> & (c & -> & Hc) & w7 & w8 & -> & Hw7 & -> & He).
  apply chr_is_eq in Hc. subst c.
  exists (w1 ++ w2 ++ w3 ++ w4 ++ w5), w7.
  rewrite <- !app_assoc, app_nil_r. simpl. auto.
Qed.

Lemma problematic_ends_with_paren line pattern :
  In pattern problematic_patterns ->
  found (re_match pattern (strip line)) = true ->
  endswith (txt ")") (strip line) = true.
Proof.
  intros Hin Hm.
  assert (Ht : exists l1, pattern = seqs (l1 ++ re_call_tail)).
  { destruct Hin as [<-|[<-|[<-|[]]]]; eexists; reflexivity. }
  destruct Ht as (l1 & ->).
  unfold re_match, match_here in Hm.
  destruct (rmatch _ _ _) as [m|] eqn:E; [|discriminate Hm].
  apply rmatch_some in E as (w & aft & _ & Hs & Hl & _).
  apply lang_seqs_app in Hl as (w1 & w2 & -> & Hl); [|discriminate].
  apply call_tail_ends in Hl as (x & ws & -> & Hws & He).
  assert (Hz : ws ++ aft = []).
  { apply (strip_no_trailing_space line (w1 ++ x ++ [")"%char])).
    - rewrite Hs, <- !app_assoc. reflexivity.
    - rewrite forallb_app, Hws. unfold at_end in He. cbn [after] in He.
      destruct aft as [|a [|b aft]]; [reflexivity| |discriminate He].
      apply chr_is_eq in He. subst a. reflexivity. }
  apply app_eq_nil in Hz as [-> ->].
  rewrite Hs, app_nil_r. unfold endswith.
  rewrite app_assoc, rev_app_distr. reflexivity.
Qed.

(** X5.  The semicolon check never adds anything.  Its three patterns all
    end with a closing parenthesis at the end of the trimmed line, and its
    guard lets through only trimmed lines that do not end with one, so the two
    conditions never hold together and no document gets the "Consider adding
    semicolon" warning. *)
Theorem semicolon_check_is_dead (lines : list str) (st : checker) :
  exec (check_semicolons lines) st = st.
Proof.
  unfold check_semicolons.
  assert (H : forall il st0,
             when (semicolon_candidate (strip (snd il)))
               (when (existsb (fun pattern => found (re_match pattern (strip (snd il))))
                        problematic_patterns)
                  (warn (msg_semicolon (fst il) (strip (snd il))))) st0 = (tt, st0)).
  { intros [i line] st0. cbn [fst snd].
    destruct (existsb _ problematic_patterns) eqn:E.
    - apply existsb_exists in E as (pattern & Hin & Hm).
      pose proof (problematic_ends_with_paren line pattern Hin Hm) as He.
      unfold semicolon_candidate. rewrite He. cbn [negb].
      rewrite !andb_false_r. reflexivity.
    - destruct (semicolon_candidate (strip line)); reflexivity. }
  revert st. induction (enumerate1 lines) as [|il t IH]; intros st; [reflexivity|].
  simpl. rewrite exec_bind. unfold exec at 2. cbv zeta in H. rewrite H. apply IH.
Qed.

(** ** Multiline calls that close *)

Lemma tracker_count_depth i s t :
  open_parens (tracker_count i s t) = (open_parens t + paren_balance s)%Z.
Proof.
  unfold tracker_count. revert t.
  induction s as [|c s IH]; intros t; cbn [fold_left paren_balance].
  - lia.
  - rewrite IH. unfold tracker_char.
    destruct (chr_is "(" c); [cbn [open_parens]; lia|].
    destruct (chr_is ")" c); cbn [open_parens]; lia.
Qed.

(** A line that leaves the flag unset found it unset and has no opening
    parenthesis. *)
Lemma tracker_count_idle i s t :
  in_multiline_call (tracker_count i s t) = false ->
  in_multiline_call t = false /\ (paren_balance s <= 0)%Z.
Proof.
  unfold tracker_count. revert t.
  induction s as [|c s IH]; intros t H; cbn [fold_left paren_balance] in *.
  - split; [exact H|lia].
  - apply IH in H as [H Hb]. unfold tracker_char in H.
    destruct (chr_is "(" c); [discriminate H|].
    destruct (chr_is ")" c); cbn [in_multiline_call] in H; split; auto; lia.
Qed.

Lemma tracker_line_steady i line t st :
  tracker_steady t -> (0 <= open_parens t + line_balance line)%Z ->
  exists t', tracker_line t (i, line) st = (t', st) /\ tracker_steady t'
             /\ open_parens t' = (open_parens t + line_balance line)%Z.
Proof.
  intros [H0 Hidle] Hb. unfold tracker_line, line_balance in *. cbn [fst snd].
  destruct (tracker_skips (strip line)).
  - exists t. split; [reflexivity|]. split; [split; assumption|lia].
  - set (t1 := tracker_count i (strip line) t).
    assert (Hd : open_parens t1 = (open_parens t + paren_balance (strip line))%Z)
      by apply tracker_count_depth.
    unfold tracker_close.
    destruct (in_multiline_call t1) eqn:Hin; cbn [andb].
    + destruct (Z.eqb_spec (open_parens t1) 0) as [Hz|Hz].
      * eexists. split; [reflexivity|]. unfold tracker_steady.
        cbn [open_parens in_multiline_call].
        split; [split; [lia|intros _; lia]|lia].
      * destruct ((multiline_start t1 <? i) && (0 <? open_parens t1)%Z).
        -- exists t1. split; [reflexivity|]. split; [split; [lia|congruence]|lia].
        -- destruct (Z.ltb_spec (open_parens t1) 0); [lia|].
           exists t1. split; [reflexivity|]. split; [split; [lia|congruence]|lia].
    + exists t1. split; [reflexivity|].
      apply tracker_count_idle in Hin as [Hin Hle].
      specialize (Hidle Hin). split; [split; [lia|intros _; lia]|lia].
Qed.

Lemma tracker_from_steady lines :
  forall i t st,
    tracker_steady t ->
    (forall k, 0 <= open_parens t + running_balance (firstn k lines))%Z ->
    exec (tracker_from i lines t) st = st
    /\ open_parens (eval (tracker_from i lines t) st)
       = (open_parens t + running_balance lines)%Z.
Proof.
  induction lines as [|l lines IH]; intros i t st Ht Hk.
  - simpl. unfold exec, eval, tracker_from, ret. simpl. split; [reflexivity|lia].
  - unfold exec, eval, tracker_from. simpl enumerate_from. rewrite for_fold_cons.
    destruct (tracker_line_steady i l t st Ht) as (t' & E & Ht' & Hd).
    { specialize (Hk 1). simpl in Hk. lia. }
    unfold eval, exec. rewrite E. cbn [fst snd].
    destruct (IH (S i) t' st Ht') as [IH1 IH2].
    { intros k. specialize (Hk (S k)). simpl in Hk. lia. }
    unfold exec, eval, tracker_from in IH1, IH2. rewrite IH1, IH2.
    split; [reflexivity|]. simpl. lia.
Qed.

(** X6.  When the count of opening minus closing parentheses over the
    scanned lines (comment and blank lines count for nothing) is never negative
    at the end of a line, the multiline scan adds no "extra closing
    parenthesis" error and its counter ends at the total; if the total is 0 the
    whole check adds nothing, however many lines a call spans. *)
Theorem closed_calls_are_silent (lines : list str) (st : checker) :
  (forall k, 0 <= running_balance (firstn k lines))%Z ->
  exec (tracker_scan lines) st = st
  /\ open_parens (eval (tracker_scan lines) st) = running_balance lines
  /\ (running_balance lines = 0%Z -> exec (check_multiline_calls lines) st = st).
Proof.
  intros Hk.
  destruct (tracker_from_steady lines 1 tracker0 st) as [H1 H2].
  - split; [simpl; lia|reflexivity].
  - intros k. simpl. apply Hk.
  - change (tracker_from 1 lines tracker0) with (tracker_scan lines) in H1, H2.
    simpl in H2. split; [exact H1|]. split; [exact H2|].
    intros Hz. unfold check_multiline_calls. rewrite exec_bind, H1, H2, Hz.
    reflexivity.
Qed.

Lemma closed_calls_are_silent_witness :
  exec (check_multiline_calls
          [txt "plot(close,"; txt "  // colour ("; txt "     color=color.new(c, 0),";
           txt ""; txt "     title=t)"]) init = init.
Proof.
  apply (closed_calls_are_silent
           [txt "plot(close,"; txt "  // colour ("; txt "     color=color.new(c, 0),";
            txt ""; txt "     title=t)"] init).
  - intros k. do 6 (destruct k as [|k]; [vm_compute; discriminate|]).
    vm_compute; discriminate.
  - reflexivity.
Defined.

(** ** What the declaration pass records and reports *)

Lemma declare_line_lookup d i l st n :
  eval (declare_line d (i, l)) st !! n
  = match d !! n with
    | Some f => Some f
    | None => if declares_name n l then Some i else None
    end.
Proof.
  unfold declare_line, declares_name. cbn [fst snd].
  destruct (classify (strip l)) as [v|v|].
  - destruct (d !! v) as [f|] eqn:Ev.
    + unfold eval. rewrite bind_run. cbn [fst ret]. unfold ret. cbn [fst].
      destruct (d !! n) eqn:En; [reflexivity|].
      rewrite bool_decide_eq_false_2; [reflexivity|congruence].
    + unfold eval, ret. cbn [fst].
      destruct (decide (v = n)) as [->|Hne].
      * rewrite lookup_insert_eq, Ev, bool_decide_eq_true_2; reflexivity.
      * rewrite lookup_insert_ne by exact Hne.
        rewrite bool_decide_eq_false_2 by exact Hne.
        destruct (d !! n); reflexivity.
  - destruct (d !! v) as [f|] eqn:Ev.
    + unfold eval, ret. cbn [fst].
      destruct (d !! n) eqn:En; [reflexivity|].
      rewrite bool_decide_eq_false_2; [reflexivity|congruence].
    + unfold eval, ret. cbn [fst].
      destruct (decide (v = n)) as [->|Hne].
      * rewrite lookup_insert_eq, Ev, bool_decide_eq_true_2; reflexivity.
      * rewrite lookup_insert_ne by exact Hne.
        rewrite bool_decide_eq_false_2 by exact Hne.
        destruct (d !! n); reflexivity.
  - unfold eval, ret. cbn [fst]. destruct (d !! n); reflexivity.
Qed.

Lemma declare_from_lookup lines :
  forall i d st n,
    eval (declare_from i lines d) st !! n
    = match d !! n with
      | Some f => Some f
      | None => first_declaring_from i n lines
      end.
Proof.
  induction lines as [|l lines IH]; intros i d st n.
  - unfold declare_from, eval, ret. simpl. destruct (d !! n); reflexivity.
  - unfold eval. rewrite declare_from_cons.
    change ((declare_from (S i) lines (eval (declare_line d (i, l)) st)
               (exec (declare_line d (i, l)) st)).1)
      with (eval (declare_from (S i) lines (eval (declare_line d (i, l)) st))
              (exec (declare_line d (i, l)) st)).
    rewrite IH, declare_line_lookup. cbn [first_declaring_from].
    destruct (d !! n); [reflexivity|].
    destruct (declares_name n l); reflexivity.
Qed.

(** X7.  After the declaration pass the dictionary holds, for every name,
    the number of the first line that declares it, by a [var] declaration or by
    a plain assignment, and nothing for a name that no line declares. *)
Theorem dictionary_holds_first_line (lines : list str) (n : str) :
  eval (declare_scan lines) init !! n = first_declaring_from 1 n lines.
Proof.
  unfold declare_scan, enumerate1.
  change (for_fold (enumerate_from 1 lines) declare_line ∅)
    with (declare_from 1 lines ∅).
  rewrite declare_from_lookup, lookup_empty. reflexivity.
Qed.

Lemma first_declaring_app n l1 l2 i :
  first_declaring_from i n (l1 ++ l2)
  = match first_declaring_from i n l1 with
    | Some f => Some f
    | None => first_declaring_from (i + length l1) n l2
    end.
Proof.
  revert i. induction l1 as [|l l1 IH]; intros i; simpl.
  - rewrite Nat.add_0_r. reflexivity.
  - destruct (declares_name n l); [reflexivity|].
    rewrite IH. replace (S i + length l1) with (i + S (length l1)) by lia. reflexivity.
Qed.

Lemma first_declaring_bound n lines i f :
  first_declaring_from i n lines = Some f -> i <= f < i + length lines.
Proof.
  revert i. induction lines as [|l lines IH]; intros i; simpl; [discriminate|].
  destruct (declares_name n l).
  - intros [= <-]. lia.
  - intros H. apply IH in H. lia.
Qed.

Lemma first_declaring_found n lines i k l :
  nth_error lines k = Some l -> declares_name n l = true ->
  exists f, first_declaring_from i n lines = Some f /\ f <= i + k.
Proof.
  revert i k. induction lines as [|x lines IH]; intros i k Hn Hd.
  - destruct k; discriminate Hn.
  - simpl. destruct (declares_name n x) eqn:Ex.
    + exists i. split; [reflexivity|lia].
    + destruct k as [|k]; simpl in Hn.
      * injection Hn as ->. congruence.
      * destruct (IH (S i) k Hn Hd) as (f & Hf & Hle). exists f. split; [exact Hf|lia].
Qed.

Lemma declares_name_var n l : classify (strip l) = VarDecl n -> declares_name n l = true.
Proof. intros H. unfold declares_name. rewrite H. apply bool_decide_eq_true_2. reflexivity. Qed.

Lemma duplicate_at_prefix pre l j x :
  In (j, x) (enumerate1 pre) -> duplicate_at (pre ++ [l]) (j, x) = duplicate_at pre (j, x).
Proof.
  intros Hin. unfold duplicate_at. cbn [fst snd].
  destruct (classify (strip x)) as [n| |] eqn:Ec; try reflexivity.
  apply enumerate_from_in in Hin as [Hj Hn].
  destruct (first_declaring_found n pre 1 (j - 1) x Hn (declares_name_var n x Ec))
    as (f & Hf & _).
  rewrite first_declaring_app, Hf. reflexivity.
Qed.

Lemma flat_map_ext_in {A B} (f g : A -> list B) (l : list A) :
  (forall x, In x l -> f x = g x) -> flat_map f l = flat_map g l.
Proof.
  induction l as [|x l IH]; intros H; simpl; [reflexivity|].
  rewrite (H x) by (left; reflexivity). rewrite IH; [reflexivity|].
  intros y Hy. apply H. right. exact Hy.
Qed.

Lemma declare_scan_errors (lines : list str) :
  exec (declare_scan lines) init = Checker (duplicate_errors lines) [].
Proof.
  induction lines as [|l pre IH] using rev_ind; [reflexivity|].
  unfold declare_scan, enumerate1, exec in *.
  change (for_fold (enumerate_from 1 (pre ++ [l])) declare_line ∅)
    with (declare_from 1 (pre ++ [l]) ∅).
  change (for_fold (enumerate_from 1 pre) declare_line ∅)
    with (declare_from 1 pre ∅) in IH.
  rewrite declare_from_app, declare_from_cons.
  unfold exec at 2 3. rewrite IH. unfold declare_from at 1. simpl for_fold.
  unfold ret. cbn [snd].
  unfold duplicate_errors, enumerate1. rewrite enumerate_from_app, flat_map_app.
  rewrite (flat_map_ext_in (duplicate_at (pre ++ [l])) (duplicate_at pre))
    by (intros [j x] Hin; apply duplicate_at_prefix, Hin).
  simpl flat_map. rewrite app_nil_r.
  set (d := eval (declare_from 1 pre ∅) init).
  assert (Hd : forall n, d !! n = first_declaring_from 1 n pre).
  { intros n. unfold d. rewrite declare_from_lookup, lookup_empty. reflexivity. }
  unfold declare_line, duplicate_at. cbn [fst snd].
  destruct (classify (strip l)) as [n|n|] eqn:Ec.
  - rewrite first_declaring_app, <- Hd.
    destruct (d !! n) as [f|] eqn:En.
    + rewrite bind_run. unfold exec, err, ret. cbn [fst snd errors warnings].
      rewrite Hd in En. apply first_declaring_bound in En.
      change (1 + length pre) with (S (length pre)) in *.
      destruct (Nat.ltb_spec f (S (length pre))); [reflexivity|lia].
    + cbn [first_declaring_from]. rewrite (declares_name_var n l Ec).
      rewrite Nat.ltb_irrefl. unfold ret. cbn [snd]. rewrite app_nil_r. reflexivity.
  - destruct (d !! n); unfold ret; cbn [snd]; rewrite app_nil_r; reflexivity.
  - unfold ret. cbn [snd]. rewrite app_nil_r. reflexivity.
Qed.

(** X8.  The errors of the declaration pass are exactly these: for each
    [var] declaration, in the order of the lines, one "already defined" error
    when the name is first declared on an earlier line, by [var] or by
    assignment, and the error names that first line.  A first declaration and a
    plain assignment to a declared name add nothing, and no warning is added. *)
Theorem duplicates_reported_exactly (lines : list str) (st : checker) :
  exec (check_duplicates lines) st
  = Checker (errors st ++ duplicate_errors lines) (warnings st).
Proof.
  rewrite (appender_exec _ st (appender_check_duplicates lines)).
  unfold check_duplicates. rewrite exec_bind, declare_scan_errors.
  unfold extend, exec, skip, ret. cbn [snd errors warnings].
  rewrite app_nil_r. reflexivity.
Qed.

Lemma no_findings_nested_witness :
  nested (concat [txt "a = f(b[0])"; txt "// {c}"; txt ""]).
Proof.
  apply (no_findings_nested [txt "a = f(b[0])"; txt "// {c}"; txt ""]).
  vm_compute. reflexivity.
Defined.

(** ** One closing bracket too many *)






(** ** A warning that its own advice does not silence *)

Lemma split_lines_cons_nonempty s : split_lines s <> [].
Proof.
  destruct s as [|c s]; simpl; [discriminate|].
  destruct (chr_is c nl); [discriminate|]. destruct (split_lines s); discriminate.
Qed.

Lemma split_lines_first s h r : split_lines s = h :: r -> exists b, s = h ++ b.
Proof.
  revert h r. induction s as [|c s IH]; intros h r H; simpl in H.
  - injection H as <- _. exists []. reflexivity.
  - destruct (chr_is c nl).
    + injection H as <- _. exists (c :: s). reflexivity.
    + destruct (split_lines s) as [|h' r'] eqn:Es; injection H as <- _.
      * destruct (split_lines_cons_nonempty s Es).
      * destruct (IH h' r' eq_refl) as (b & ->). exists b. reflexivity.
Qed.

(** A line of a text is a part of the text. *)
Lemma split_lines_part s :
  forall i l, nth_error (split_lines s) i = Some l -> exists a b, s = a ++ l ++ b.
Proof.
  induction s as [|c s IH]; intros i l H.
  - simpl in H. destruct i as [|[|i]]; try discriminate H.
    injection H as <-. exists [], []. reflexivity.
  - destruct i as [|i].
    + destruct (split_lines (c :: s)) as [|h r] eqn:Es; [discriminate H|].
      injection H as <-. destruct (split_lines_first _ _ _ Es) as (b & E).
      exists [], b. exact E.
    + simpl in H. destruct (chr_is c nl).
      * simpl in H. apply IH in H as (a & b & ->). exists (c :: a), b. reflexivity.
      * destruct (split_lines s) as [|h r] eqn:Es; [destruct i; discriminate H|].
        simpl in H. destruct (IH (S i) l H) as (a & b & ->).
        exists (c :: a), b. reflexivity.
Qed.

Lemma contains_part sub a l b : contains sub l = true -> contains sub (a ++ l ++ b) = true.
Proof.
  intros H. apply contains_spec in H as (x & y & ->). apply contains_spec.
  exists (a ++ x), (y ++ b). rewrite <- !app_assoc. reflexivity.
Qed.

Lemma security_inside line :
  contains (txt "request.security(") line = true ->
  contains (txt "security(") line = true.
Proof.
  intros H. apply contains_spec in H as (x & y & ->). apply contains_spec.
  exists (x ++ txt "request."), y. rewrite <- !app_assoc. reflexivity.
Qed.

(** X11.  The hint to replace [security(] by [request.security(] fires on
    its own advice: every line, not a comment, that calls
    [request.security(] gets the warning that ['security('] may need to be
    updated to ['request.security('], and the document gets the warning that
    it uses the potentially deprecated function [security]. *)
Theorem request_security_still_warned (path content : str) (i : nat) (line : str)
    (st : checker) :
  nth_error (split_lines content) i = Some line ->
  contains (txt "request.security(") line = true ->
  is_comment (strip line) = false ->
  let ws := warnings (exec (check_file path (ReadOk content)) st) in
  In (msg_v6 (S i) (txt "security(") (txt "request.security(")) ws
  /\ In (txt "Using potentially deprecated function: security") ws.
Proof.
  intros Hn Hc Hm. cbv zeta.
  pose proof (security_inside line Hc) as Hs.
  unfold exec. rewrite check_file_run. cbn [snd]. rewrite check_file_fresh.
  unfold extend. cbn [warnings]. split.
  - apply in_or_app; right. apply in_or_app; left.
    unfold check_basic_syntax. do 11 warned_later. warned_now.
    unfold check_v6_issues.
    apply (for_each_warnings_in _ _ (txt "security(", txt "request.security(")).
    + intros x; appends.
    + left. reflexivity.
    + apply (for_each_warnings_in _ _ (S i, line)).
      * intros x; appends.
      * apply (enumerate_from_nth _ 1 i line Hn).
      * cbn [fst snd]. rewrite Hs, Hm. left. reflexivity.
  - apply in_or_app; right. apply in_or_app; right.
    unfold check_common_issues. cbv zeta. warned_now.
    apply (for_each_warnings_in _ _ (txt "security")).
    + intros x; appends.
    + left. reflexivity.
    + destruct (split_lines_part content i line Hn) as (a & b & E).
      assert (Hcc : contains (txt "security" ++ txt "(") content = true).
      { rewrite E. apply contains_part. exact Hs. }
      rewrite Hcc. left. reflexivity.
Qed.

Lemma request_security_still_warned_witness :
  let content := txt "//@version=6" ++ [nl] ++ txt "c = request.security(s, t, close)" in
  let ws := warnings (exec (check_file (txt "a.pine") (ReadOk content)) init) in
  In (msg_v6 2 (txt "security(") (txt "request.security(")) ws
  /\ In (txt "Using potentially deprecated function: security") ws.
Proof.
  exact (request_security_still_warned (txt "a.pine")
           (txt "//@version=6" ++ [nl] ++ txt "c = request.security(s, t, close)")
           1 (txt "c = request.security(s, t, close)") init
           eq_refl eq_refl eq_refl).
Defined.

(** ** The entry for string arrays *)

Lemma msg_invalid_type_inj t t' : msg_invalid_type t = msg_invalid_type t' -> t = t'.
Proof.
  unfold msg_invalid_type. intros H.
  apply app_inv_head, app_inv_tail in H. exact H.
Qed.

(** X12.  The entry of the list of invalid types that is meant for string
    arrays is looked for with its backslashes: in a document that has no
    backslash it is never found, so the type written [string[]] is not
    reported by it. *)
Theorem string_array_entry_needs_backslash (content : str) :
  ~ In "\"%char content ->
  ~ In (msg_invalid_type (txt "string\[\]"))
       (errors (exec (check_invalid_types content) init)).
Proof.
  intros Hno Hin. unfold check_invalid_types in Hin.
  apply for_each_errors_inv in Hin as [[]|(t & _ & Hin)]; [|intros x; appends].
  destruct (found (re_search (re_invalid_type t) content)) eqn:E; [|destruct Hin].
  destruct Hin as [Hm|[]]. apply msg_invalid_type_inj in Hm. subst t.
  apply re_search_found in E as (pre & w & aft & -> & Hl).
  unfold re_invalid_type, seqs in Hl. cbn [lang] in Hl.
  destruct Hl as (w1 & w2 & -> & [-> _] & w3 & w4 & -> & -> & _).
  apply Hno. apply in_or_app; right. apply in_or_app; left.
  simpl. auto 10.
Qed.

Lemma string_array_entry_needs_backslash_witness :
  ~ In (msg_invalid_type (txt "string\[\]"))
       (errors (exec (check_invalid_types (txt "string[] names = array.new_string()")) init)).
Proof.
  apply (string_array_entry_needs_backslash (txt "string[] names = array.new_string()")).
  vm_compute. intuition discriminate.
Defined.

(** ** Which [var] lines the declaration pass sees *)

Lemma word_not_space c : isword c = true -> isspace c = false.
Proof.
  destruct c as [[] [] [] [] [] [] [] []]; vm_compute; congruence.
Qed.

Lemma space_not_word c : isspace c = true -> isword c = false.
Proof.
  intros H. destruct (isword c) eqn:E; [|reflexivity].
  apply word_not_space in E. congruence.
Qed.

Lemma stops_after p q (x y : str) :
  (forall c, q c = true -> p c = false) ->
  x <> [] -> forallb q x = true -> stops p (x ++ y) = true.
Proof.
  intros Hq Hne Hx. destruct x as [|c x]; [congruence|].
  simpl in *. apply andb_true_iff in Hx as [Hc _]. rewrite (Hq c Hc). reflexivity.
Qed.

Lemma stops_after_maybe p q (x : str) c t :
  (forall a, q a = true -> p a = false) ->
  forallb q x = true -> p c = false -> stops p (x ++ c :: t) = true.
Proof.
  intros Hq Hx Hc. destruct x as [|a x]; simpl in *.
  - rewrite Hc. reflexivity.
  - apply andb_true_iff in Hx as [Ha _]. rewrite (Hq a Ha). reflexivity.
Qed.

(** Where a run of characters of a class ends is determined by the text. *)
Lemma span_unique p (a b x y : str) :
  forallb p a = true -> forallb p b = true ->
  stops p x = true -> stops p y = true ->
  a ++ x = b ++ y -> a = b /\ x = y.
Proof.
  revert b. induction a as [|c a IH]; intros b Ha Hb Hx Hy E.
  - destruct b as [|d b]; [auto|]. simpl in *. subst x.
    apply andb_true_iff in Hb as [Hd _]. simpl in Hx. rewrite Hd in Hx. discriminate Hx.
  - destruct b as [|d b]; simpl in *.
    + subst y. apply andb_true_iff in Ha as [Hc _]. simpl in Hy.
      rewrite Hc in Hy. discriminate Hy.
    + injection E as <- E.
      apply andb_true_iff in Ha as [_ Ha]. apply andb_true_iff in Hb as [_ Hb].
      destruct (IH b Ha Hb Hx Hy E) as [-> ->]. auto.
Qed.

Lemma var_decl_needs_type name rest ws1 ws2 w aft :
  name <> [] -> forallb isword name = true ->
  forallb isspace ws1 = true -> forallb isspace ws2 = true ->
  untyped_var name rest ws1 ws2 = w ++ aft ->
  ~ lang re_var_decl [] w aft.
Proof.
  intros Hn Hname Hws1 Hws2 E Hl.
  unfold re_var_decl, seqs, ch in Hl. cbn [lang] in Hl.
  destruct Hl as (v & r1 & -> & -> & s1 & r2 & -> & [Hs1n Hs1] & w1 & r3 & -> & [Hw1n Hw1]
                  & s2 & r4 & -> & [Hs2n Hs2] & w2 & r5 & -> & [Hw2n Hw2]
                  & s3 & r6 & -> & Hs3 & c & -> & Hc).
  unfold untyped_var in E. rewrite <- !app_assoc in E.
  change (txt "var " ++ ws1 ++ name ++ ws2 ++ "="%char :: rest)
    with (txt "var" ++ (" "%char :: ws1) ++ name ++ ws2 ++ "="%char :: rest) in E.
  apply app_inv_head in E.
  assert (E1 : name ++ ws2 ++ "="%char :: rest = w1 ++ s2 ++ w2 ++ s3 ++ [c] ++ aft).
  { refine (proj2 (span_unique isspace (" "%char :: ws1) s1 _ _ _ Hs1 _ _ E)).
    - simpl. exact Hws1.
    - apply (stops_after isspace isword); auto using word_not_space.
    - apply (stops_after isspace isword); auto using word_not_space. }
  assert (E2 : ws2 ++ "="%char :: rest = s2 ++ w2 ++ s3 ++ [c] ++ aft).
  { refine (proj2 (span_unique isword name w1 _ _ Hname Hw1 _ _ E1)).
    - apply (stops_after_maybe isword isspace); auto using space_not_word.
    - apply (stops_after isword isspace); auto using space_not_word. }
  assert (E3 : "="%char :: rest = w2 ++ s3 ++ [c] ++ aft).
  { refine (proj2 (span_unique isspace ws2 s2 _ _ Hws2 Hs2 _ _ E2)).
    - reflexivity.
    - apply (stops_after isspace isword); auto using word_not_space. }
  clear E E1 E2. rename E3 into E.
  destruct w2 as [|c2 w2]; [congruence|].
  simpl in E, Hw2. injection E as <- _. discriminate Hw2.
Qed.

(** X13.  A [var] declaration written without a type, [var name = ...], is
    not a declaration for the declaration pass: it records nothing and reports
    nothing, whatever the dictionary holds, so declaring the same name this way
    twice goes unnoticed. *)
Theorem untyped_var_is_ignored (d : declared) (i : nat) (line name rest ws1 ws2 : str)
    (st : checker) :
  name <> [] -> forallb isword name = true ->
  forallb isspace ws1 = true -> forallb isspace ws2 = true ->
  strip line = untyped_var name rest ws1 ws2 ->
  classify (strip line) = NoDecl /\ declare_line d (i, line) st = (d, st).
Proof.
  intros Hn Hname Hws1 Hws2 Hs.
  assert (Hc : classify (strip line) = NoDecl).
  { rewrite Hs. unfold classify.
    change (is_empty (untyped_var name rest ws1 ws2)) with false.
    change (is_comment (untyped_var name rest ws1 ws2)) with false.
    change (startswith (txt "var ") (untyped_var name rest ws1 ws2)) with true.
    cbn [negb andb].
    assert (Hm : re_match re_var_decl (untyped_var name rest ws1 ws2) = None).
    { apply match_here_none. intros w aft E.
      apply (var_decl_needs_type name rest ws1 ws2); assumption. }
    rewrite Hm. reflexivity. }
  split; [exact Hc|]. unfold declare_line. cbn [fst snd]. rewrite Hc. reflexivity.
Qed.

Lemma untyped_var_is_ignored_witness :
  classify (strip (txt "  var x = 2")) = NoDecl
  /\ declare_line (<[txt "x" := 1]> ∅) (2, txt "  var x = 2") init
     = (<[txt "x" := 1]> ∅, init).
Proof.
  apply (untyped_var_is_ignored (<[txt "x" := 1]> ∅) 2 (txt "  var x = 2")
           (txt "x") (txt " 2") [] (txt " ") init).
  - discriminate.
  - reflexivity.
  - reflexivity.
  - reflexivity.
  - reflexivity.
Defined.

Lemma star_from_first {A} (p : ascii -> bool) (k : cursor -> option A) g ds bef rest x :
  forallb p ds = true -> stops p rest = true ->
  k (Cursor (rev ds ++ bef) rest g) = Some x ->
  star_from p k g bef (ds ++ rest) = Some x.
Proof.
  revert bef. induction ds as [|d ds IH]; intros bef Hds Hrest Hk.
  - destruct rest as [|c rest]; [exact Hk|].
    simpl in *. apply negb_true_iff in Hrest. rewrite Hrest. exact Hk.
  - simpl in *. apply andb_true_iff in Hds as [Hd Hds]. rewrite Hd.
    rewrite (IH (d :: bef) Hds Hrest); [reflexivity|].
    rewrite <- app_assoc in Hk. exact Hk.
Qed.

Lemma rmatch_plus_first {A} (p : ascii -> bool) (k : cursor -> option A) g ds bef rest x :
  ds <> [] -> forallb p ds = true -> stops p rest = true ->
  k (Cursor (rev ds ++ bef) rest g) = Some x ->
  rmatch (Plus p) k (Cursor bef (ds ++ rest) g) = Some x.
Proof.
  intros Hne Hds Hrest Hk. destruct ds as [|d ds]; [congruence|].
  simpl in Hds. apply andb_true_iff in Hds as [Hd Hds].
  simpl. rewrite Hd. apply star_from_first; [exact Hds|exact Hrest|].
  simpl in Hk. rewrite <- app_assoc in Hk. exact Hk.
Qed.

Lemma rmatch_star_first {A} (p : ascii -> bool) (k : cursor -> option A) g ds bef rest x :
  forallb p ds = true -> stops p rest = true ->
  k (Cursor (rev ds ++ bef) rest g) = Some x ->
  rmatch (Star p) k (Cursor bef (ds ++ rest) g) = Some x.
Proof. intros. simpl. apply star_from_first; assumption. Qed.

Lemma var_decl_matches ty name rest ws1 ws2 ws3 :
  ty <> [] -> forallb isword ty = true ->
  name <> [] -> forallb isword name = true ->
  forallb isspace ws1 = true ->
  ws2 <> [] -> forallb isspace ws2 = true ->
  forallb isspace ws3 = true ->
  exists m, re_match re_var_decl (typed_var ty name rest ws1 ws2 ws3) = Some m
            /\ m_group1 m = name.
Proof.
  intros Hty Htyw Hn Hnw Hws1 Hws2n Hws2 Hws3.
  unfold re_match, match_here, re_var_decl, seqs, typed_var.
  change (txt "var " ++ ws1 ++ ty ++ ws2 ++ name ++ ws3 ++ "="%char :: rest)
    with (txt "var" ++ (" "%char :: ws1) ++ ty ++ ws2 ++ name ++ ws3 ++ "="%char :: rest).
  eexists. split.
  - rewrite rmatch_seq, rmatch_lit, rmatch_seq.
    apply rmatch_plus_first;
      [discriminate|simpl; exact Hws1
      |apply (stops_after isspace isword); auto using word_not_space|].
    rewrite rmatch_seq. apply rmatch_plus_first;
      [exact Hty|exact Htyw
      |apply (stops_after isword isspace); auto using space_not_word|].
    rewrite rmatch_seq. apply rmatch_plus_first;
      [exact Hws2n|exact Hws2
      |apply (stops_after isspace isword); auto using word_not_space|].
    rewrite rmatch_seq, rmatch_grp. apply rmatch_plus_first;
      [exact Hn|exact Hnw
      |apply (stops_after_maybe isword isspace); auto using space_not_word|].
    rewrite rmatch_seq. apply rmatch_star_first; [exact Hws3|reflexivity|].
    reflexivity.
  - unfold m_group1. cbn [m_end group1 after].
    replace (length (name ++ ws3 ++ "="%char :: rest) - length (ws3 ++ "="%char :: rest))
      with (length name) by (rewrite length_app; lia).
    rewrite firstn_app, Nat.sub_diag, firstn_all, firstn_O, app_nil_r. reflexivity.
Qed.

(** X14.  A [var] declaration written with a type, [var type name = ...],
    in which a space character follows [var], as the test on the beginning of
    the line requires, and any white space stands between the other parts, is
    a declaration of [name] for the declaration pass: on a name that is not yet
    recorded it records the line, and on a recorded name it adds the "already
    defined" error that names the recorded line and leaves the record as it
    is. *)
Theorem typed_var_is_declared (d : declared) (i : nat)
    (line ty name rest ws1 ws2 ws3 : str) (st : checker) :
  ty <> [] -> forallb isword ty = true ->
  name <> [] -> forallb isword name = true ->
  forallb isspace ws1 = true ->
  ws2 <> [] -> forallb isspace ws2 = true ->
  forallb isspace ws3 = true ->
  strip line = typed_var ty name rest ws1 ws2 ws3 ->
  classify (strip line) = VarDecl name
  /\ declare_line d (i, line) st
     = match d !! name with
       | Some first =>
           (d, Checker (errors st ++ [msg_already_defined i name first]) (warnings st))
       | None => (<[name := i]> d, st)
       end.
Proof.
  intros Hty Htyw Hn Hnw Hws1 Hws2n Hws2 Hws3 Hs.
  assert (Hc : classify (strip line) = VarDecl name).
  { rewrite Hs. unfold classify.
    change (is_empty (typed_var ty name rest ws1 ws2 ws3)) with false.
    change (is_comment (typed_var ty name rest ws1 ws2 ws3)) with false.
    change (startswith (txt "var ") (typed_var ty name rest ws1 ws2 ws3)) with true.
    cbn [negb andb].
    destruct (var_decl_matches ty name rest ws1 ws2 ws3) as (m & -> & ->); auto. }
  split; [exact Hc|]. unfold declare_line. cbn [fst snd]. rewrite Hc.
  destruct (d !! name); [rewrite bind_run|]; reflexivity.
Qed.

Lemma typed_var_is_declared_witness :
  classify (strip (txt "var float  lastLow= na")) = VarDecl (txt "lastLow")
  /\ declare_line (<[txt "lastLow" := 3]> ∅) (7, txt "var float  lastLow= na") init
     = (<[txt "lastLow" := 3]> ∅,
        Checker [msg_already_defined 7 (txt "lastLow") 3] []).
Proof.
  pose proof (typed_var_is_declared (<[txt "lastLow" := 3]> ∅) 7
                (txt "var float  lastLow= na")
                (txt "float") (txt "lastLow") (txt " na") [] (txt "  ") [] init
                ltac:(discriminate) eq_refl ltac:(discriminate) eq_refl eq_refl
                ltac:(discriminate) eq_refl eq_refl eq_refl) as H.
  rewrite lookup_insert_eq in H. exact H.
Defined.

(** ** The two parenthesis checks together *)

Lemma paren_balance_app a b : paren_balance (a ++ b) = (paren_balance a + paren_balance b)%Z.
Proof. induction a as [|c a IH]; cbn [app paren_balance]; [reflexivity|]. rewrite IH. lia. Qed.

Lemma paren_balance_other c s :
  chr_is "(" c = false -> chr_is ")" c = false ->
  paren_balance (c :: s) = paren_balance s.
Proof. intros H1 H2. cbn [paren_balance]. rewrite H1, H2. lia. Qed.

Lemma not_bracket_not_paren c :
  brackets c = None -> is_closing c = false ->
  chr_is "(" c = false /\ chr_is ")" c = false.
Proof.
  unfold brackets, is_closing. intros Hb Hc.
  destruct (chr_is "(" c); [discriminate Hb|].
  destruct (chr_is ")" c); [discriminate Hc|]. auto.
Qed.

(** What an opening character and its closing character add to the count. *)
Lemma pair_balance o c s :
  brackets o = Some c ->
  exists d, (0 <= d)%Z
            /\ (forall t, paren_balance (o :: t) = d + paren_balance t)%Z
            /\ (forall t, paren_balance (s ++ c :: t) = paren_balance s - d + paren_balance t)%Z.
Proof.
  unfold brackets. intros H.
  destruct (chr_is "(" o) eqn:E1.
  - injection H as <-. exists 1%Z. split; [lia|]. split.
    + intros t. cbn [paren_balance]. rewrite E1. reflexivity.
    + intros t. rewrite paren_balance_app. cbn [paren_balance].
      change (chr_is "(" ")") with false. change (chr_is ")" ")") with true. cbv iota. lia.
  - assert (Ho : chr_is ")" o = false).
    { destruct (chr_is "[" o) eqn:E2; [apply chr_is_eq in E2; subst o; reflexivity|].
      destruct (chr_is "{" o) eqn:E3; [apply chr_is_eq in E3; subst o; reflexivity|].
      discriminate H. }
    assert (Hcl : chr_is "(" c = false /\ chr_is ")" c = false).
    { destruct (chr_is "[" o); [injection H as <-; split; reflexivity|].
      destruct (chr_is "{" o); [injection H as <-; split; reflexivity|].
      discriminate H. }
    destruct Hcl as [Hc1 Hc2]. exists 0%Z. split; [lia|]. split.
    + intros t. rewrite (paren_balance_other o t E1 Ho). lia.
    + intros t. rewrite paren_balance_app, (paren_balance_other c t Hc1 Hc2). lia.
Qed.

(** In correctly nested text the parentheses close, and never before they
    open. *)
Lemma nested_balance s :
  nested s ->
  paren_balance s = 0%Z /\ forall p q, s = p ++ q -> (0 <= paren_balance p)%Z.
Proof.
  induction 1 as [|c s Hb Hc Hn [IH0 IHp]|o c s1 s2 Hb Hn1 [IH10 IH1p] Hn2 [IH20 IH2p]].
  - split; [reflexivity|]. intros p q E. symmetry in E.
    apply app_eq_nil in E as [-> _]. simpl. lia.
  - destruct (not_bracket_not_paren c Hb Hc) as [H1 H2]. split.
    + rewrite (paren_balance_other c s H1 H2). exact IH0.
    + intros p q E. destruct p as [|c' p]; [simpl; lia|].
      simpl in E. injection E as <- E.
      rewrite (paren_balance_other c p H1 H2). apply (IHp p q E).
  - destruct (pair_balance o c s1 Hb) as (d & Hd & Ho & Hc). split.
    + rewrite Ho, Hc. lia.
    + intros p q E. destruct p as [|o' p]; [simpl; lia|].
      simpl in E. injection E as <- E. rewrite Ho.
      apply app_eq_app in E as [l [[-> E]|[-> E]]].
      * pose proof (IH1p p l eq_refl). lia.
      * destruct l as [|c' l]; simpl in E.
        -- rewrite app_nil_r. lia.
        -- injection E as <- ->.
           replace (s1 ++ c :: l) with (s1 ++ c :: l ++ []) by (rewrite app_nil_r; reflexivity).
           rewrite Hc. rewrite paren_balance_app. change (paren_balance []) with 0%Z.
           pose proof (IH2p l q eq_refl). lia.
Qed.

Lemma space_balance a : forallb isspace a = true -> paren_balance a = 0%Z.
Proof.
  induction a as [|c a IH]; intros H; [reflexivity|].
  simpl in H. apply andb_true_iff in H as [Hc Ha].
  rewrite paren_balance_other; [auto| |].
  - destruct (chr_is "(" c) eqn:E; [|reflexivity].
    apply chr_is_eq in E. subst c. discriminate Hc.
  - destruct (chr_is ")" c) eqn:E; [|reflexivity].
    apply chr_is_eq in E. subst c. discriminate Hc.
Qed.

Lemma strip_balance l : paren_balance (strip l) = paren_balance l.
Proof.
  unfold strip, rstrip, lstrip.
  destruct (drop_while_split_all isspace l) as (a & Ha & Hsa).
  destruct (drop_while_split_all isspace (rev (drop_while isspace l))) as (b & Hb & Hsb).
  rewrite Ha at 2. rewrite paren_balance_app, (space_balance a Hsa).
  apply (f_equal (@rev ascii)) in Hb. rewrite rev_involutive, rev_app_distr in Hb.
  rewrite Hb at 2. rewrite paren_balance_app.
  rewrite (space_balance (rev b)); [lia|].
  rewrite forallb_forall in *. intros x Hx. apply Hsb, in_rev, Hx.
Qed.

Lemma line_balance_plain l :
  is_comment (strip l) = false -> line_balance l = paren_balance l.
Proof.
  intros Hc. unfold line_balance, tracker_skips. rewrite Hc. cbn [orb].
  destruct (strip l) eqn:E; cbn [is_empty].
  - rewrite <- strip_balance, E. reflexivity.
  - rewrite <- E. apply strip_balance.
Qed.

Lemma running_balance_plain lines :
  Forall (fun l => is_comment (strip l) = false) lines ->
  running_balance lines = paren_balance (concat lines).
Proof.
  induction 1 as [|l lines Hl _ IH]; [reflexivity|].
  cbn [running_balance concat]. rewrite paren_balance_app, IH, (line_balance_plain l Hl).
  reflexivity.
Qed.

(** X15.  On a document without comment lines the two parenthesis checks
    agree on correct documents: when all brackets are correctly nested, so that
    the bracket check adds nothing, the multiline-call check adds nothing
    either. *)
Theorem nested_calls_are_silent (lines : list str) (st : checker) :
  Forall (fun l => is_comment (strip l) = false) lines ->
  nested (concat lines) ->
  exec (check_brackets lines) st = st /\ exec (check_multiline_calls lines) st = st.
Proof.
  intros Hc Hn.
  assert (Hb : exec (check_brackets lines) st = st).
  { unfold check_brackets, bracket_scan, exec. rewrite bind_run.
    change (for_fold (enumerate1 lines) bracket_line []) with (bracket_from 1 lines []).
    unfold eval, exec. rewrite bracket_from_tagged.
    rewrite (nested_scan _ Hn (tagged 1 lines) (tagged_chars 1 lines)). reflexivity. }
  split; [exact Hb|].
  destruct (nested_balance _ Hn) as [H0 Hp].
  destruct (tracker_from_steady lines 1 tracker0 st) as [H1 H2].
  - split; [simpl; lia|reflexivity].
  - intros k. simpl.
    rewrite running_balance_plain.
    + apply (Hp _ (concat (skipn k lines))).
      rewrite <- concat_app, firstn_skipn. reflexivity.
    + apply Forall_take, Hc.
  - change (tracker_from 1 lines tracker0) with (tracker_scan lines) in H1, H2.
    simpl in H2. unfold check_multiline_calls. rewrite exec_bind, H1, H2.
    rewrite (running_balance_plain lines Hc), H0. reflexivity.
Qed.

Lemma nested_calls_are_silent_witness :
  exec (check_brackets [txt "f(a,"; txt "  b)"]) init = init
  /\ exec (check_multiline_calls [txt "f(a,"; txt "  b)"]) init = init.
Proof.
  apply (nested_calls_are_silent [txt "f(a,"; txt "  b)"] init).
  - repeat constructor.
  - change (nested (txt "f(a,  b)")).
    apply nested_other; [reflexivity|reflexivity|].
    apply (nested_pair "(" ")" (txt "a,  b") []); [reflexivity| |apply nested_nil].
    do 5 (apply nested_other; [reflexivity|reflexivity|]). apply nested_nil.
Defined.

(** ** Labels *)

(** X16.  A document that calls [label.new] is always warned about labels.
    Without [var label] in its text it gets the warning about label
    declarations; with it, the text contains [var ] as well, and it gets the
    warning about global label variables. *)
Theorem label_new_always_warned (content : str) (lines : list str) (st : checker) :
  contains (txt "label.new") content = true ->
  In (if contains (txt "var label") content
      then txt "Global label variables detected - ensure labels are properly managed to avoid memory leaks"
      else txt "Label operations detected - ensure proper label variable declarations")
     (warnings (exec (check_basic_syntax content lines) st)).
Proof.
  intros H. destruct (contains (txt "var label") content) eqn:E.
  - assert (Hv : contains (txt "var ") content = true).
    { apply contains_spec in E as (a & b & E). apply contains_spec.
      exists a, (txt "label" ++ b). rewrite E. reflexivity. }
    unfold check_basic_syntax. do 14 warned_later. warned_now.
    unfold check_usage. warned_later. warned_now.
    rewrite Hv, H. left. reflexivity.
  - assert (Ha : any_in label_ops content = true).
    { apply existsb_exists. exists (txt "label.new"). split; [left; reflexivity|exact H]. }
    unfold check_basic_syntax. do 12 warned_later. warned_now.
    unfold check_initialisation. warned_later. warned_now.
    rewrite Ha, E. left. reflexivity.
Qed.

Lemma label_new_always_warned_witness :
  In (if contains (txt "var label") (txt "var label l = label.new(bar_index, high)")
      then txt "Global label variables detected - ensure labels are properly managed to avoid memory leaks"
      else txt "Label operations detected - ensure proper label variable declarations")
     (warnings (exec (check_basic_syntax (txt "var label l = label.new(bar_index, high)")
                        [txt "var label l = label.new(bar_index, high)"]) init)).
Proof.
  exact (label_new_always_warned (txt "var label l = label.new(bar_index, high)")
           [txt "var label l = label.new(bar_index, high)"] init eq_refl).
Defined.

(** ** The printed report *)

Lemma check_file_finds_something path r st :
  is_empty (errors (exec (check_file path r) st))
  && is_empty (warnings (exec (check_file path r) st)) = false.
Proof.
  unfold exec. rewrite check_file_run. cbn [snd]. unfold extend. cbn [errors warnings].
  assert (Hne : forall (a b : list str) x, In x b -> is_empty (a ++ b) = false).
  { intros a b x Hx. destruct a; [|reflexivity]. destruct b; [destruct Hx|reflexivity]. }
  destruct r as [content| |].
  - apply andb_false_iff. right. rewrite check_file_fresh.
    destruct (startswith (txt "//@version") (strip content)) eqn:E.
    + eapply Hne. apply in_or_app. right.
      apply division_warning, directive_has_slash, E.
    + eapply Hne. apply in_or_app. left. apply should_start_warning, E.
  - apply andb_false_iff. left. eapply Hne. left. reflexivity.
  - apply andb_false_iff. left. eapply Hne. left. reflexivity.
Qed.

(** Every line of a report with findings begins with a line feed, in a
    header, or with a space, in an item. *)
Lemma print_results_heads st :
  is_empty (errors st) && is_empty (warnings st) = false ->
  Forall (fun l => hd 0%N l = 10%N \/ hd 0%N l = 32%N) (print_results st).
Proof.
  intros H. unfold print_results. rewrite H.
  assert (Hi : forall l : list str,
             Forall (fun l => hd 0%N l = 10%N \/ hd 0%N l = 32%N)
                    (map (fun m => uni (txt "  " ++ m)) l)).
  { intros l. apply Forall_forall. intros x Hx.
    apply list_elem_of_In, in_map_iff in Hx as (m & <- & _). right. reflexivity. }
  apply Forall_app. split.
  - destruct (negb (is_empty (errors st))); [|constructor].
    constructor; [left; reflexivity|apply Hi].
  - destruct (negb (is_empty (warnings st))); [|constructor].
    constructor; [left; reflexivity|apply Hi].
Qed.

(** X17.  [main] never prints the line that says no issues were found: the
    branch of [print_results] that prints it needs both lists empty, which no
    call of [check_file] leaves.  And the last line [main] prints agrees with
    its exit status: it is the line that says the check passed exactly when
    the status is 0. *)
Theorem no_issues_never_printed (env : environment) :
  ~ In no_issues_line (main_prints env)
  /\ (main env = 0 <-> exists n, List.last (main_prints env) [] = passed_line n).
Proof.
  unfold main_prints, main. cbv zeta.
  destruct (length (argv env) <? 2).
  - split.
    + intros [H|[H|[]]]; apply (f_equal (hd 0%N)) in H; vm_compute in H; discriminate H.
    + split; [discriminate|]. intros [n H]. exfalso.
      apply (f_equal (hd 0%N)) in H. vm_compute in H. discriminate H.
  - destruct (negb (path_exists env (nth 1 (argv env) []))).
    + split.
      * intros [H|[]]. apply (f_equal (hd 0%N)) in H. vm_compute in H. discriminate H.
      * split; [discriminate|]. intros [n H]. exfalso.
        apply (f_equal (hd 0%N)) in H. vm_compute in H. discriminate H.
    + set (st := exec (check_file (nth 1 (argv env) []) (read_file env (nth 1 (argv env) []))) init).
      pose proof (check_file_finds_something (nth 1 (argv env) [])
                    (read_file env (nth 1 (argv env) [])) init) as Hf.
      fold st in Hf. split.
      * intros [H|H]; [apply (f_equal (hd 0%N)) in H; discriminate H|].
        apply in_app_or in H as [H|[H|[]]].
        -- pose proof (print_results_heads st Hf) as Hh.
           rewrite List.Forall_forall in Hh. destruct (Hh _ H) as [E|E]; discriminate E.
        -- apply (f_equal (hd 0%N)) in H. destruct (s_passed (get_summary st)); discriminate H.
      * rewrite app_comm_cons, List.last_last. cbn [get_summary s_passed s_errors s_warnings].
        destruct (is_empty (errors st)).
        -- split; [intros _; eexists; reflexivity|reflexivity].
        -- split; [discriminate|]. intros [n H]. exfalso.
           apply (f_equal (fun l => nth 1 l 0%N)) in H. discriminate H.
Qed.

(** ** Calls left open *)

(** A trimmed line in which the pattern of an open call is found ends with a
    character that is not a closing parenthesis. *)
Lemma open_call_last line :
  found (re_search re_open_call (strip line)) = true ->
  exists y c, strip line = y ++ [c] /\ chr_is ")" c = false.
Proof.
  intros H. apply re_search_found in H as (pre & w & aft & Hs & Hl).
  unfold re_open_call, seqs, ch in Hl. cbn [lang] in Hl.
  destruct Hl as (w1 & r1 & -> & (-> & _) & w2 & r2 & -> & _ & w3 & r3 & -> & _
                  & w4 & r4 & -> & (c & -> & Hc) & w5 & w6 & -> & Hw5 & -> & He).
  apply chr_is_eq in Hc. subst c.
  assert (Hz : aft = []).
  { apply (strip_no_trailing_space line (pre ++ w2 ++ w3 ++ ["("%char] ++ w5)).
    - rewrite Hs. cbn [app]. rewrite <- !app_assoc, app_nil_r. reflexivity.
    - unfold at_end in He. cbn [after] in He.
      destruct aft as [|a [|b aft]]; [reflexivity| |discriminate He].
      apply chr_is_eq in He. subst a. reflexivity. }
  subst aft. rewrite Hs. cbn [app]. rewrite !app_nil_r.
  destruct w5 as [|d w5 _] using rev_ind.
  - exists (pre ++ w2 ++ w3), "("%char. rewrite <- !app_assoc. split; reflexivity.
  - exists (pre ++ w2 ++ w3 ++ "("%char :: w5), d. split.
    + rewrite <- !app_assoc. reflexivity.
    + rewrite forallb_app in Hw5. apply andb_true_iff in Hw5 as [_ Hd].
      simpl in Hd. rewrite andb_true_r in Hd. unfold not_ch in Hd.
      destruct (chr_is ")" d); [discriminate Hd|reflexivity].
Qed.

(** X18.  In the check for incomplete calls the second test of the guard,
    that the trimmed line does not end with a closing parenthesis, never
    decides anything: the pattern already requires that no closing parenthesis
    follows the opening one up to the end of the line, so wherever it is found
    the second test holds. *)
Theorem incomplete_call_second_test_idle (line : str) :
  found (re_search re_open_call (strip line)) && negb (endswith (txt ")") (strip line))
  = found (re_search re_open_call (strip line)).
Proof.
  destruct (found (re_search re_open_call (strip line))) eqn:E; [|reflexivity].
  apply open_call_last in E as (y & c & -> & Hc).
  unfold endswith. rewrite rev_app_distr.
  change (rev (txt ")")) with [")"%char]. cbn [rev app startswith].
  rewrite Hc. reflexivity.
Qed.
